(** * OncoAgent: the orchestration graph, its router and its agents

    A shallow embedding of the Python sources of OncoAgent
    (src/oncoagent/agents, src/oncoagent/tools, app/routes.py) and of the
    orchestration contract they run under, with the properties of the
    specification stated and settled on it.

    Python strings are modelled as byte strings ([string]); the string
    helpers below are exact on ASCII text.  A Python [dict] used as the
    graph State is a finite map [gmap string Value]. *)

From Stdlib Require Import Ascii String.
From stdpp Require Import gmap strings list sorting pretty.

Local Open Scope string_scope.
Set Warnings "-register-all,-clear-no-such-hyp".

(** ** Python values and string helpers *)

Module Py.

(** The result of a call that may raise. *)
Inductive Res (A : Type) : Type :=
| Ok (a : A)
| Raise (exc : string).
Arguments Ok {A} a.
Arguments Raise {A} exc.

Definition bind {A B} (r : Res A) (k : A -> Res B) : Res B :=
  match r with
  | Ok a => k a
  | Raise e => Raise e
  end.

(** The values a State field can hold.  [VMsg] is a LangChain message
    (its [type] and [content]); [VRef] is a reference to a mutable
    [Claim] object living in the object store. *)
Inductive Value : Type :=
| VNone
| VBool (b : bool)
| VStr (s : string)
| VList (l : list Value)
| VDict (d : list (string * Value))
| VSet (s : gset string)
| VMsg (type content : string)
| VRef (l : nat).

(** Python truthiness. *)
Definition truthy (v : Value) : bool :=
  match v with
  | VNone => false
  | VBool b => b
  | VStr s => negb (String.eqb s "")
  | VList l => match l with [] => false | _ => true end
  | VDict d => match d with [] => false | _ => true end
  | VSet s => negb (bool_decide (s = ∅))
  | VMsg _ _ => true
  | VRef _ => true
  end.

(** [v == s] for a string literal [s]. *)
Definition eq_str (v : Value) (s : string) : bool :=
  match v with
  | VStr t => String.eqb t s
  | _ => false
  end.

(** [v in [s1, s2, ...]] for string literals. *)
Definition in_strs (v : Value) (ss : list string) : bool :=
  existsb (eq_str v) ss.

(** [d.get(k)] on a dict literal kept as an association list. *)
Fixpoint dict_get (d : list (string * Value)) (k : string) : option Value :=
  match d with
  | [] => None
  | (k', v) :: d' => if String.eqb k' k then Some v else dict_get d' k
  end.

(** [str.isspace] on one ASCII character. *)
Definition isspace (c : ascii) : bool :=
  let n := nat_of_ascii c in
  ((9 <=? n) && (n <=? 13) || (28 <=? n) && (n <=? 32))%nat.

Definition lower_char (c : ascii) : ascii :=
  let n := nat_of_ascii c in
  if ((65 <=? n) && (n <=? 90))%nat then ascii_of_nat (n + 32)%nat else c.

Definition upper_char (c : ascii) : ascii :=
  let n := nat_of_ascii c in
  if ((97 <=? n) && (n <=? 122))%nat then ascii_of_nat (n - 32)%nat else c.

Fixpoint map_chars (f : ascii -> ascii) (s : string) : string :=
  match s with
  | EmptyString => EmptyString
  | String c s' => String (f c) (map_chars f s')
  end.

(** [s.lower()] and [s.upper()]. *)
Definition lower : string -> string := map_chars lower_char.
Definition upper : string -> string := map_chars upper_char.

Fixpoint lstrip (s : string) : string :=
  match s with
  | EmptyString => EmptyString
  | String c s' => if isspace c then lstrip s' else s
  end.

(** [s.strip()]. *)
Definition strip (s : string) : string :=
  String.rev (lstrip (String.rev (lstrip s))).

(** [needle in hay]. *)
Fixpoint contains (needle hay : string) : bool :=
  String.prefix needle hay ||
  match hay with
  | EmptyString => false
  | String _ hay' => contains needle hay'
  end.

(** [s.split()]: the maximal runs of non-space characters. *)
Fixpoint split_go (cur : option string) (s : string) : list string :=
  match s with
  | EmptyString =>
      match cur with Some w => [String.rev w] | None => [] end
  | String c s' =>
      if isspace c then
        match cur with
        | Some w => String.rev w :: split_go None s'
        | None => split_go None s'
        end
      else split_go (Some (String c (default EmptyString cur))) s'
  end.
Definition split : string -> list string := split_go None.

(** [s.replace(c, "")] for a one-character [c]. *)
Fixpoint remove_char (c : ascii) (s : string) : string :=
  match s with
  | EmptyString => EmptyString
  | String c' s' =>
      if Ascii.eqb c' c then remove_char c s' else String c' (remove_char c s')
  end.

(** The double and the single quote character. *)
Definition double_quote : ascii := ascii_of_nat 34.
Definition apostrophe : ascii := ascii_of_nat 39.

(** [s.split(sep)] for a one-character [sep]: never empty. *)
Fixpoint split_on_go (sep : ascii) (cur : string) (s : string) : list string :=
  match s with
  | EmptyString => [String.rev cur]
  | String c s' =>
      if Ascii.eqb c sep then String.rev cur :: split_on_go sep EmptyString s'
      else split_on_go sep (String c cur) s'
  end.
Definition split_on (sep : ascii) : string -> list string :=
  split_on_go sep EmptyString.

(** [s.split(sep, 1)]: [None] when [sep] does not occur. *)
Fixpoint split_once_go (sep : ascii) (cur : string) (s : string)
  : option (string * string) :=
  match s with
  | EmptyString => None
  | String c s' =>
      if Ascii.eqb c sep then Some (String.rev cur, s')
      else split_once_go sep (String c cur) s'
  end.
Definition split_once (sep : ascii) : string -> option (string * string) :=
  split_once_go sep EmptyString.

(** [s.startswith(p)]. *)
Definition startswith (s p : string) : bool := String.prefix p s.

End Py.
Export Py.

(** ** The State and the route decisions *)

(** [OncoAgentState]: the dict handed to every node. *)
Abbreviation State := (gmap string Value).

(** [Send(node, arg)]: one branch of a fan-out with the state it runs on. *)
Abbreviation Send := (string * State)%type.

(** What a router answers at a decision node. *)
Inductive RouteDecision : Type :=
| Terminal
| Single (step : string)
| FanOut (sends : list Send).

(** [state.get(key, dflt)]. *)
Definition get (state : State) (key : string) (dflt : Value) : Value :=
  default dflt (state !! key).

(** ** Records of the data model (state.py, exa_tools.py) *)

(** [Citation] and [Claim] of state.py, as the sources build and read them. *)
Record Citation : Type := {
  source_type : string;
  source_id : string;
  cit_title : string;
  cit_url : string;
  cit_snippet : string;
  cit_retrieved_date : string;
}.

Record Claim : Type := {
  statement : string;
  citations : list Citation;
  confidence : string;
  cross_validated : bool;
  validation_notes : option string;
}.

(** The object store: [Claim] objects are mutable and shared by reference. *)
Abbreviation Heap := (gmap nat Claim).

(** One item of an Exa answer, and the dict [search_medical_sources] makes
    of it. *)
Record ExaItem : Type := {
  item_url : string;
  item_title : string;
  item_highlights : option (list string);
  item_summary : string;
  item_text : string;
  item_id : string;
}.

Record SearchResult : Type := {
  url : string;
  title : string;
  highlights : list string;
  summary : string;
  text : string;
  id : string;
}.

(** One entry of the [evidence] field. *)
Record Evidence : Type := {
  source : string;
  ev_title : string;
  snippet : list string;
  ev_source_type : string;
  retrieved_date : string;
}.

Definition evidence_value (e : Evidence) : Value :=
  VDict [("source", VStr (source e)); ("title", VStr (ev_title e));
         ("snippet", VList (VStr <$> snippet e));
         ("source_type", VStr (ev_source_type e));
         ("retrieved_date", VStr (retrieved_date e))].

(** ** The outside world

    Everything the agents obtain from a service, the clock or the
    environment.  A chat-model call is a function of what the agent puts
    into its prompt; the constant prompt texts are part of the function. *)
Record World : Type := {
  anthropic_api_key : option string;
  openai_api_key : option string;
  (** supervisor: the query and the last eight messages; [None] on an exception *)
  llm_classify : string -> list Value -> option string;
  (** research: the query and the history, answers the text of the queries *)
  llm_queries : string -> list Value -> Res string;
  (** exa-py [search_and_contents] for one query *)
  exa_search : string -> Res (list ExaItem);
  (** direct_chat: the messages after the system prompt *)
  llm_chat : list Value -> Res string;
  (** context_responder: whether the question is a repeated one, the history, the query *)
  llm_context : bool -> list Value -> string -> Res string;
  (** cross_validator: the statement and the citations of one claim *)
  llm_validate : string -> list Citation -> Res string;
  (** response_builder: query, evidence, clinical trials, image analyses *)
  llm_respond : Value -> Value -> Value -> list Value -> Res string;
  (** vision: Gemini on the bytes and the MIME type of one image *)
  analyze_medical_image : Value -> Value -> Res Value;
  (** clinical_trials: [search_studies] for a condition, each study summarised *)
  search_trials : Value -> Res (list Value);
  (** [datetime.now(timezone.utc).isoformat()] *)
  utc_now : string;
  (** [str(uuid.uuid4())] *)
  uuid4 : string;
  (** [base64.b64decode] *)
  b64decode : string -> Res string;
}.

(** An API key is configured when it is set and not empty. *)
Definition key_set (k : option string) : bool :=
  match k with Some s => negb (String.eqb s "") | None => false end.

(** A field read at its declared type: [OncoAgentState] declares
    [messages], [images], [evidence] and [claims] lists and the query a
    string, and the sources read them as such. *)
Definition as_list (v : Value) : list Value :=
  match v with VList l => l | _ => [] end.
Definition as_str (v : Value) : string :=
  match v with VStr s => s | _ => "" end.

(** [state[key]]: raises [KeyError] when the key is absent. *)
Definition getitem (state : State) (key : string) : Res Value :=
  match state !! key with
  | Some v => Ok v
  | None => Raise "KeyError"
  end.

(** ** agents/supervisor.py *)

Module Supervisor.

Definition DIRECT_INTENTS : list string :=
  ["greeting"; "followup_with_context"; "repeated_question"].

Definition valid_intents : list string :=
  ["greeting"; "followup_with_context"; "repeated_question";
   "option_selection"; "research_required"].

(** [messages[-n:]]. *)
Definition last_n {A} (n : nat) (l : list A) : list A :=
  drop (length l - n)%nat l.

(** The greeting test both classifiers share. *)
Definition greeting_or_research (greetings : list string) (query : string) : string :=
  let q := strip (lower query) in
  if existsb (fun g => contains g q) greetings && (length (split q) <? 5)%nat
  then "greeting" else "research_required".

Definition _classify_intent_simple (query : string) : string :=
  greeting_or_research
    ["hola"; "hello"; "hi"; "buenos dias"; "buenas tardes"; "como estas"] query.

Definition _classify_intent_with_llm (w : World) (query : string) (messages : list Value)
  : string :=
  if (length messages <=? 1)%nat then
    greeting_or_research
      ["hola"; "hello"; "hi"; "buenos dias"; "buenas tardes"; "como estas"; "hey"]
      query
  else
    match llm_classify w query (last_n 8%nat messages) with
    | Some content =>
        let intent :=
          remove_char apostrophe (remove_char double_quote (lower (strip content))) in
        if existsb (String.eqb intent) valid_intents then intent
        else "research_required"
    | None => "research_required"
    end.

(** The node: its partial State holds the one field [query_type]. *)
Definition supervisor (w : World) (state : State) : State :=
  let query := as_str (get state "original_query" (VStr "")) in
  let messages := as_list (get state "messages" (VList [])) in
  let intent :=
    if key_set (anthropic_api_key w)
    then _classify_intent_with_llm w query messages
    else _classify_intent_simple query in
  {[ "query_type" := VStr intent ]}.

(** The conditional edge after the supervisor.  [query_type] is declared
    [str]; a value that is no string equals none of the literals. *)
Definition route_after_supervisor (state : State) : RouteDecision :=
  let intent := get state "query_type" (VStr "research_required") in
  if eq_str intent "greeting" then Single "direct_chat"
  else if in_strs intent ["followup_with_context"; "repeated_question"]
  then Single "context_responder"
  else
    let sends := [("research", state)] in
    let sends :=
      if in_strs intent ["treatment"; "trial"]
      then (sends ++ [("clinical_trials", state)])%list else sends in
    let sends :=
      if truthy (get state "images" VNone)
      then (sends ++ [("vision", state)])%list else sends in
    FanOut sends.

End Supervisor.

(** ** tools/exa_tools.py and agents/research.py *)

Module Research.

Definition structured (item : ExaItem) : SearchResult :=
  {| url := item_url item;
     title := item_title item;
     highlights := default [] (item_highlights item);
     summary := item_summary item;
     text := item_text item;
     id := item_id item |}.

(** [search_medical_sources]; a missing EXA key or a failing request is
    an exception of the search itself. *)
Definition search_medical_sources (w : World) (query : string)
  : Res (list SearchResult) :=
  bind (exa_search w query) (fun items => Ok (structured <$> items)).

Definition _classify_source (url : string) : string :=
  if contains "pubmed.ncbi.nlm.nih.gov" url || contains "pmc.ncbi.nlm.nih.gov" url
  then "pubmed"
  else if contains "asco.org" url || contains "ascopubs.org" url then "asco"
  else if contains "fda.gov" url then "fda"
  else if contains "esmo.org" url then "esmo"
  else if contains "nccn.org" url || contains "jnccn.org" url then "nccn"
  else if contains "nejm.org" url then "nejm"
  else if contains "thelancet.com" url then "lancet"
  else if contains "cochranelibrary.com" url then "cochrane"
  else "other".

(** The end of [_generate_search_queries]: the non-blank lines of the
    answer, stripped, at most four. *)
Definition parse_queries (content : string) : list string :=
  take 4 (filter (fun q => q ≠ "") (strip <$> split_on (ascii_of_nat 10) (strip content))).

(** The queries the agent searches for. *)
Definition search_queries (w : World) (original_query : string) (history : Value)
  : list string :=
  if key_set (anthropic_api_key w) then
    match llm_queries w original_query (as_list history) with
    | Ok content => parse_queries content
    | Raise _ => [original_query]
    end
  else [original_query].

Definition make_evidence (now : string) (result : SearchResult) : Evidence :=
  {| source := url result;
     ev_title := title result;
     snippet := highlights result;
     ev_source_type := _classify_source (url result);
     retrieved_date := now |}.

(** The inner loop: one query's results against the URLs seen so far. *)
Fixpoint dedup_results (now : string) (results : list SearchResult)
    (acc : gset string * list Evidence) : gset string * list Evidence :=
  match results with
  | [] => acc
  | result :: rest =>
      let '(seen_urls, evidence) := acc in
      if bool_decide (url result ∈ seen_urls)
      then dedup_results now rest acc
      else dedup_results now rest
             ({[url result]} ∪ seen_urls, (evidence ++ [make_evidence now result])%list)
  end.

(** The outer loop over what [asyncio.gather(..., return_exceptions=True)]
    returned: a result list per query, or the exception it raised. *)
Fixpoint dedup_all (now : string) (all_results : list (Res (list SearchResult)))
    (acc : gset string * list Evidence) : gset string * list Evidence :=
  match all_results with
  | [] => acc
  | Raise _ :: rest => dedup_all now rest acc
  | Ok results :: rest => dedup_all now rest (dedup_results now results acc)
  end.

Definition collect_evidence (now : string) (all_results : list (Res (list SearchResult)))
  : list Evidence :=
  (dedup_all now all_results (∅, [])).2.

Definition research_agent (w : World) (state : State) : Res State :=
  bind (getitem state "original_query") (fun original_query =>
    let conversation_history := get state "messages" (VList []) in
    let queries := search_queries w (as_str original_query) conversation_history in
    let all_results := search_medical_sources w <$> queries in
    let evidence := collect_evidence (utc_now w) all_results in
    Ok ({[ "evidence" := VList (evidence_value <$> evidence);
           "agents_completed" := VList [VStr "research"] ]} : State)).

End Research.

(** ** safety.py *)

Module Safety.

Definition count_if {A} (p : A -> bool) (l : list A) : nat :=
  length (List.filter p l).

Definition mem (s : string) (l : list string) : bool :=
  existsb (String.eqb s) l.

Definition calculate_confidence (claim : Claim) : string :=
  match citations claim with
  | [] => "UNCERTAIN"
  | _ =>
      let n_sources := length (citations claim) in
      let quality_sources :=
        count_if (fun c => mem (source_type c) ["pubmed"; "fda"; "nccn"])
                 (citations claim) in
      if (3 <=? n_sources)%nat && (2 <=? quality_sources)%nat then "HIGH"
      else if (2 <=? n_sources)%nat && (1 <=? quality_sources)%nat then "MEDIUM"
      else if (1 <=? n_sources)%nat then "LOW"
      else "UNCERTAIN"
  end.

Definition calculate_overall_confidence (claims : list Claim) : string :=
  match claims with
  | [] => "UNCERTAIN"
  | _ =>
      let levels := confidence <$> claims in
      if forallb (fun level => String.eqb level "HIGH") levels then "HIGH"
      else if existsb (fun level => String.eqb level "UNCERTAIN") levels then "LOW"
      else if existsb (fun level => String.eqb level "LOW") levels then "LOW"
      else "MEDIUM"
  end.

(** [e.get("source_type", "other")] of one evidence dict. *)
Definition evidence_source_type (e : Value) : Value :=
  match e with
  | VDict d => default (VStr "other") (dict_get d "source_type")
  | _ => VStr "other"
  end.

Definition calculate_confidence_from_evidence (evidence : list Value) : string :=
  match evidence with
  | [] => "UNCERTAIN"
  | _ =>
      let n_sources := length evidence in
      let high_quality_count :=
        count_if (fun e => in_strs (evidence_source_type e)
                    ["fda"; "nccn"; "asco"; "esmo"; "nejm"; "lancet"; "pubmed"; "cochrane"])
                 evidence in
      if (5 <=? n_sources)%nat && (3 <=? high_quality_count)%nat then "HIGH"
      else if (3 <=? n_sources)%nat && (2 <=? high_quality_count)%nat then "HIGH"
      else if (2 <=? n_sources)%nat && (1 <=? high_quality_count)%nat then "MEDIUM"
      else if (1 <=? n_sources)%nat then "LOW"
      else "UNCERTAIN"
  end.

End Safety.

(** ** agents/cross_validator.py

    The node reads the [Claim] objects the State refers to and assigns to
    their attributes, so it runs on the object store. *)

Module CrossValidator.

(** The three assignments to one claim. *)
Definition validated (claim : Claim) (content : string) : Claim :=
  {| statement := statement claim;
     citations := citations claim;
     confidence :=
       if contains "UNCERTAIN" (upper content) then "UNCERTAIN" else confidence claim;
     cross_validated := true;
     validation_notes := Some content |}.

(** The loop over [state.get("claims", [])]: the store after the claims
    handled so far, and either the list built so far or the exception
    that ended the loop. *)
Fixpoint validate_claims (w : World) (claims : list Value)
    (validated_claims : list Value) (heap : Heap) : Res (list Value) * Heap :=
  match claims with
  | [] => (Ok validated_claims, heap)
  | VRef l :: rest =>
      match heap !! l with
      | Some claim =>
          match llm_validate w (statement claim) (citations claim) with
          | Ok content =>
              validate_claims w rest (validated_claims ++ [VRef l])%list
                (<[l := validated claim content]> heap)
          | Raise e => (Raise e, heap)
          end
      | None => (Raise "AttributeError", heap)
      end
  | _ :: _ => (Raise "AttributeError", heap)
  end.

Definition cross_validator (w : World) (state : State) (heap : Heap)
  : Res State * Heap :=
  if negb (key_set (openai_api_key w))
  then (Raise "ValueError: OPENAI_API_KEY is not configured.", heap)
  else
    match validate_claims w (as_list (get state "claims" (VList []))) [] heap with
    | (Ok validated_claims, heap') =>
        (Ok ({[ "claims" := VList validated_claims;
                "needs_cross_validation" := VBool false ]} : State), heap')
    | (Raise e, heap') => (Raise e, heap')
    end.

End CrossValidator.

(** ** The other agents

    None of them assigns to an object of the State: each is a function of
    the State (and, for the response builder, of the store it reads). *)

Module Agents.

Definition aggregator (state : State) : Res State :=
  Ok ({[ "agents_completed" := VList [VStr "aggregator"] ]} : State).

Definition direct_chat_agent (w : World) (state : State) : Res State :=
  if negb (key_set (anthropic_api_key w))
  then Raise "ValueError: ANTHROPIC_API_KEY is not configured."
  else
    let history := get state "messages" (VList []) in
    let messages :=
      if truthy history then as_list history
      else [VMsg "human" (as_str (get state "original_query" (VStr "")))] in
    bind (llm_chat w messages) (fun content =>
      Ok ({[ "messages" := VList [VMsg "ai" content];
             "response" := VStr content;
             "confidence_overall" := VStr "UNCERTAIN" ]} : State)).

Definition context_responder (w : World) (state : State) : Res State :=
  if negb (key_set (anthropic_api_key w))
  then Raise "ValueError: ANTHROPIC_API_KEY is not configured."
  else
    let query := as_str (get state "original_query" (VStr "")) in
    let intent := get state "query_type" (VStr "followup_with_context") in
    let messages := as_list (get state "messages" (VList [])) in
    bind (llm_context w (eq_str intent "repeated_question") messages query)
      (fun content =>
        Ok ({[ "messages" := VList [VMsg "ai" content];
               "response" := VStr content;
               "confidence_overall" :=
                 VStr (if eq_str intent "followup_with_context"
                       then "HIGH" else "MEDIUM") ]} : State)).

(** vision.py: the loop over the images. *)
Fixpoint analyse_images (w : World) (images : list Value) (analyses : list Value)
  : Res (list Value) :=
  match images with
  | [] => Ok analyses
  | VDict image :: rest =>
      let image_bytes := default VNone (dict_get image "data") in
      let mime_type := default (VStr "image/jpeg") (dict_get image "mime_type") in
      if negb (truthy image_bytes) then analyse_images w rest analyses
      else
        bind (analyze_medical_image w image_bytes mime_type) (fun analysis =>
          analyse_images w rest
            (analyses ++ [VDict [("path", default VNone (dict_get image "path"));
                                 ("type", default VNone (dict_get image "type"));
                                 ("analysis", analysis)]])%list)
  | _ :: _ => Raise "AttributeError"
  end.

Definition vision_agent (w : World) (state : State) : Res State :=
  bind (analyse_images w (as_list (get state "images" (VList []))) [])
    (fun analyses =>
      Ok ({[ "images" := VList analyses;
             "agents_completed" := VList [VStr "vision"] ]} : State)).

(** clinical_trials.py *)
Definition _infer_condition (state : State) : Res Value :=
  let cancer_type := get state "cancer_type" VNone in
  if truthy cancer_type then Ok cancer_type else getitem state "original_query".

Definition clinical_trials_agent (w : World) (state : State) : Res State :=
  bind (_infer_condition state) (fun condition =>
  bind (search_trials w condition) (fun trials =>
    Ok ({[ "clinical_trials" := VList trials;
           "agents_completed" := VList [VStr "clinical_trials"] ]} : State))).

(** The claims a list of references stands for. *)
Definition deref (heap : Heap) (claims : list Value) : Res (list Claim) :=
  foldr (fun v acc =>
           match v with
           | VRef l =>
               match heap !! l with
               | Some c => bind acc (fun cs => Ok (c :: cs))
               | None => Raise "AttributeError"
               end
           | _ => Raise "AttributeError"
           end) (Ok []) claims.

Definition image_analyses (images : list Value) : list Value :=
  omap (fun img =>
          match img with
          | VDict d =>
              match dict_get d "analysis" with
              | Some a => if truthy a then Some a else None
              | None => None
              end
          | _ => None
          end) images.

(** response_builder.py *)
Definition response_builder (w : World) (heap : Heap) (state : State) : Res State :=
  if negb (key_set (anthropic_api_key w))
  then Raise "ValueError: ANTHROPIC_API_KEY is not configured."
  else
    bind (getitem state "original_query") (fun query =>
    bind (llm_respond w query
            (get state "evidence" (VList []))
            (get state "clinical_trials" (VList []))
            (image_analyses (as_list (get state "images" (VList [])))))
      (fun content =>
    let claims := get state "claims" (VList []) in
    let evidence := get state "evidence" (VList []) in
    bind (if truthy evidence
          then Ok (Safety.calculate_confidence_from_evidence (as_list evidence))
          else if truthy claims
          then bind (deref heap (as_list claims))
                    (fun cs => Ok (Safety.calculate_overall_confidence cs))
          else Ok "UNCERTAIN")
      (fun confidence =>
    Ok ({[ "response" := VStr content;
           "confidence_overall" := VStr confidence;
           "agents_completed" := VList [VStr "response_builder"] ]} : State)))).

End Agents.

(** ** app/routes.py *)

Module Routes.

Module QueryRequest.
Record t : Type := {
  query : string;
  thread_id : option string;
  cancer_type : option string;
  images : option (list string);
}.
End QueryRequest.

Module QueryResponse.
Record t : Type := {
  response : string;
  confidence : string;
  thread_id : string;
  citations : list Citation;
  clinical_trials : Value;
}.
End QueryResponse.

Definition _infer_query_type (query : string) : string :=
  let q := lower query in
  if contains "trial" q || contains "clinical trial" q then "trial"
  else if contains "guideline" q then "guideline"
  else if contains "drug" q || contains "dose" q || contains "dosing" q then "drug"
  else if contains "treatment" q || contains "therapy" q then "treatment"
  else "general".

Definition _decode_image (w : World) (image_str : string) (index : nat) : Res Value :=
  bind (if startswith image_str "data:" then
          match split_once "," image_str with
          | Some (header, encoded) =>
              if contains ";" header then
                match split_on ":" (List.hd "" (split_on ";" header)) with
                | _ :: mime :: _ => Ok (encoded, mime)
                | _ => Raise "IndexError"
                end
              else Ok (encoded, "image/jpeg")
          | None => Raise "ValueError"
          end
        else Ok (image_str, "image/jpeg"))
    (fun '(payload, mime_type) =>
  bind (b64decode w payload) (fun image_bytes =>
    Ok (VDict [("path", VStr ("uploaded-" +:+ pretty index));
               ("type", VStr "uploaded");
               ("data", VStr image_bytes);
               ("mime_type", VStr mime_type)]))).

(** [[_decode_image(img, idx) for idx, img in enumerate(request.images)]]. *)
Fixpoint decode_images (w : World) (idx : nat) (imgs : list string) : Res (list Value) :=
  match imgs with
  | [] => Ok []
  | img :: rest =>
      bind (_decode_image w img idx) (fun d =>
      bind (decode_images w (S idx) rest) (fun ds => Ok (d :: ds)))
  end.

Definition _extract_citations (heap : Heap) (state : State) : Res (list Citation) :=
  bind (Agents.deref heap (as_list (get state "claims" (VList []))))
    (fun claims => Ok (concat (citations <$> claims))).

(** [x or y] on an optional string: the empty string is false. *)
Definition str_or (x : option string) (y : string) : string :=
  match x with
  | Some s => if String.eqb s "" then y else s
  | None => y
  end.

Definition opt_str (x : option string) : Value :=
  match x with Some s => VStr s | None => VNone end.

Definition initial_state (request : QueryRequest.t) (images : list Value) : State :=
  list_to_map
    [("messages", VList [VMsg "human" (QueryRequest.query request)]);
     ("original_query", VStr (QueryRequest.query request));
     ("query_type", VStr (_infer_query_type (QueryRequest.query request)));
     ("cancer_type", opt_str (QueryRequest.cancer_type request));
     ("images", VList images);
     ("evidence", VList []);
     ("clinical_trials", VList []);
     ("claims", VList []);
     ("current_agent", VStr "");
     ("agents_completed", VList []);
     ("needs_cross_validation", VBool true);
     ("response", VNone);
     ("confidence_overall", VNone)].

(** What the response model accepts as [clinical_trials: list[dict]]. *)
Definition is_list_of_dicts (v : Value) : bool :=
  match v with
  | VList l => forallb (fun x => match x with VDict _ => true | _ => false end) l
  | _ => false
  end.

(** The handler of [POST /query].  [ainvoke] is the compiled graph: from
    the initial State and the thread id to the final State (and the
    store its claims live in), or an exception. *)
Definition query_oncoagent (w : World)
    (ainvoke : State -> string -> Res (State * Heap))
    (request : QueryRequest.t) : Res QueryResponse.t :=
  let thread_id := str_or (QueryRequest.thread_id request) (uuid4 w) in
  bind (match QueryRequest.images request with
        | Some (img :: imgs) => decode_images w 0 (img :: imgs)
        | _ => Ok []
        end) (fun images =>
  bind (ainvoke (initial_state request images) thread_id) (fun '(result, heap) =>
  bind (getitem result "response") (fun response =>
  bind (getitem result "confidence_overall") (fun confidence =>
  bind (_extract_citations heap result) (fun citations =>
    let trials := get result "clinical_trials" (VList []) in
    match response, confidence, is_list_of_dicts trials with
    | VStr response, VStr confidence, true =>
        Ok {| QueryResponse.response := response;
              QueryResponse.confidence := confidence;
              QueryResponse.thread_id := thread_id;
              QueryResponse.citations := citations;
              QueryResponse.clinical_trials := trials |}
    | _, _, _ => Raise "ValidationError"
    end))))).

End Routes.

(** ** The orchestration core: reducers, merge, executor, checkpoints *)

Module Orchestrator.

(** Modelled from the spec: the Reducer Registry and [merge] of section
    4.1 (the reducers are declared in state.py and applied by the graph
    runtime, neither of which is among the sources).  Every field has one
    reducer; an unregistered field is overwritten. *)
Inductive Reducer : Type := Overwrite | Concatenate | Union.

Abbreviation Registry := (gmap string Reducer).

Definition reducer_of (reg : Registry) (field : string) : Reducer :=
  default Overwrite (reg !! field).

(** Modelled from the spec: one reducer applied to the value a field has
    and the value an update brings.  Concatenation joins two sequences and
    union two sets; on other values there is nothing to join and the new
    value stands. *)
Definition reduce (r : Reducer) (old new : Value) : Value :=
  match r, old, new with
  | Concatenate, VList a, VList b => VList (a ++ b)
  | Union, VSet a, VSet b => VSet (a ∪ b)
  | _, _, _ => new
  end.

(** Modelled from the spec: one partial update applied to a State. *)
Definition apply_update (reg : Registry) (base update : State) : State :=
  map_imap (fun field v =>
              Some (match base !! field with
                    | Some old => reduce (reducer_of reg field) old v
                    | None => v
                    end)) update ∪ base.

Inductive Ty : Type := TNone | TBool | TStr | TList | TDict | TSet | TMsg | TRef.

Definition type_of (v : Value) : Ty :=
  match v with
  | VNone => TNone | VBool _ => TBool | VStr _ => TStr | VList _ => TList
  | VDict _ => TDict | VSet _ => TSet | VMsg _ _ => TMsg | VRef _ => TRef
  end.

Definition ty_eqb (a b : Ty) : bool :=
  match a, b with
  | TNone, TNone | TBool, TBool | TStr, TStr | TList, TList
  | TDict, TDict | TSet, TSet | TMsg, TMsg | TRef, TRef => true
  | _, _ => false
  end.

(** Modelled from the spec: the first overwrite field to which two
    updates of one superstep assign values of different types. *)
Definition conflict_between (reg : Registry) (u1 u2 : State) : option string :=
  fst <$> List.find (fun '(field, v1) =>
            match reducer_of reg field, u2 !! field with
            | Overwrite, Some v2 => negb (ty_eqb (type_of v1) (type_of v2))
            | _, _ => false
            end) (map_to_list u1).

Fixpoint schema_conflict (reg : Registry) (updates : list State) : option string :=
  match updates with
  | [] => None
  | u :: rest =>
      match omap (conflict_between reg u) rest with
      | field :: _ => Some field
      | [] => schema_conflict reg rest
      end
  end.

Inductive MergeResult : Type :=
| Merged (state : State)
| SchemaConflict (field : string).

(** Modelled from the spec: [merge(base, updates)], the updates applied
    in the order of the list. *)
Definition merge (reg : Registry) (base : State) (updates : list State) : MergeResult :=
  match schema_conflict reg updates with
  | Some field => SchemaConflict field
  | None => Merged (foldl (apply_update reg) base updates)
  end.

(** The position of a branch in the list the router returned. *)
Definition by_branch {A} : relation (nat * A) := fun x y => (x.1 ≤ y.1)%nat.

Global Instance by_branch_dec {A} (x y : nat * A) : Decision (by_branch x y).
Proof. unfold by_branch. apply _. Defined.

(** Modelled from the spec: the fan-in of one superstep.  The updates
    arrive in completion order, each with the position of its branch;
    they are merged in the order of the branches. *)
Definition fan_in (reg : Registry) (base : State) (arrivals : list (nat * State))
  : MergeResult :=
  merge reg base (snd <$> merge_sort by_branch arrivals).

End Orchestrator.


Module Executor.
Import Orchestrator.

(** Modelled from the spec: the graph of section 3, fixed at build time.
    A step has fixed successors or a conditional route (graph.py, which
    builds the graph for the runtime, is not among the sources). *)
Inductive Successor : Type :=
| Fixed (next : list string)
| Conditional (router : State -> RouteDecision).

Record Graph : Type := {
  entry : string;
  edges : string -> Successor;
}.

Record StepFailure : Type := {
  step : string;
  cause : string;
}.

Inductive RunFailure : Type :=
| StepFailures (failures : list StepFailure)
| MergeConflict (field : string).

(** Modelled from the spec: a Checkpoint holds the State and the superstep
    index; the layout is opaque and holds at least these, and this one also
    keeps the names of the steps of the superstep it closes, from which the
    next active set is determined. *)
Record Checkpoint : Type := {
  ck_state : State;
  ck_superstep : nat;
  ck_steps : list string;
}.

Abbreviation Store := (gmap string Checkpoint).

Definition load (sid : string) (store : Store) : option Checkpoint := store !! sid.

Definition save (sid : string) (st : State) (superstep : nat) (steps : list string)
    (store : Store) : Store :=
  <[sid := {| ck_state := st; ck_superstep := superstep; ck_steps := steps |}]> store.

Inductive Status : Type :=
| ReachedTerminal (result : State)
| Failed (failure : RunFailure)
| Interrupted.

(** What a run leaves behind: its status, the Checkpoint Store, and the
    steps it dispatched, superstep by superstep. *)
Record Run : Type := {
  status : Status;
  final_store : Store;
  trace : list (list string);
}.

(** One outcome of a superstep: the position of the branch, the name of
    its step, and what the step returned or raised. *)
Definition Outcome : Type := nat * (string * Res State).

(** Modelled from the spec: the parts of an Executor.  [completion k] is
    the order in which the steps of superstep [k] happen to complete. *)
Record Machine : Type := {
  graph : Graph;
  registry : Registry;
  steps : string -> State -> Res State;
  completion : nat -> list Outcome -> list Outcome;
}.

(** The branches a decision stands for. *)
Definition active_of (d : RouteDecision) : list Send :=
  match d with
  | Terminal => []
  | Single step => [(step, ∅)]
  | FanOut sends => sends
  end.

(** Modelled from the spec: step 1 of the superstep algorithm, the active
    set after the steps [prev]: their fixed successors, each once, and what
    the routers of the decision nodes among them return on the merged
    State. *)
Definition next_active (g : Graph) (prev : list string) (st : State) : list Send :=
  ((fun step => (step, ∅)) <$>
     remove_dups (concat ((fun s => match edges g s with
                                    | Fixed next => next
                                    | Conditional _ => []
                                    end) <$> prev)))
  ++ concat ((fun s => match edges g s with
                       | Fixed _ => []
                       | Conditional router => active_of (router st)
                       end) <$> prev).

(** Step 2: a step runs on the merged State under its branch-local override. *)
Definition dispatch (m : Machine) (st : State) (branch : Send) : Res State :=
  steps m branch.1 (branch.2 ∪ st).

Definition failure_of (o : Outcome) : option StepFailure :=
  match o.2.2 with
  | Raise c => Some {| step := o.2.1; cause := c |}
  | Ok _ => None
  end.

Definition update_of (o : Outcome) : option (nat * State) :=
  match o.2.2 with
  | Ok u => Some (o.1, u)
  | Raise _ => None
  end.

(** The outcomes of the active steps, in the order of the branches. *)
Definition outcomes (m : Machine) (st : State) (active : list Send) : list Outcome :=
  imap (fun i branch => (i, (branch.1, dispatch m st branch))) active.

Inductive SuperstepResult : Type :=
| Advanced (merged : State)
| Aborted (failure : RunFailure).

(** Modelled from the spec: steps 2 to 4 of one superstep.  Every active
    step is dispatched and awaited; if any failed the superstep is dropped
    with all the failures, else the updates are merged. *)
Definition superstep (m : Machine) (k : nat) (st : State) (active : list Send)
  : SuperstepResult :=
  let arrivals := completion m k (outcomes m st active) in
  match omap failure_of (merge_sort by_branch arrivals) with
  | [] =>
      match fan_in (registry m) st (omap update_of arrivals) with
      | Merged st' => Advanced st'
      | SchemaConflict field => Aborted (MergeConflict field)
      end
  | failures => Aborted (StepFailures failures)
  end.

(** Modelled from the spec: the Executor of section 4.4 from superstep [k]
    on, for at most [fuel] supersteps; a run that is cut before it ends is
    [Interrupted] and leaves the checkpoints written so far. *)
Fixpoint exec (m : Machine) (fuel : nat) (sid : string) (k : nat) (st : State)
    (active : list Send) (store : Store) : Run :=
  match active with
  | [] => {| status := ReachedTerminal st; final_store := store; trace := [] |}
  | _ :: _ =>
      match fuel with
      | O => {| status := Interrupted; final_store := store; trace := [] |}
      | S fuel' =>
          match superstep m k st active with
          | Aborted failure =>
              {| status := Failed failure; final_store := store; trace := [active.*1] |}
          | Advanced st' =>
              let r := exec m fuel' sid (S k) st' (next_active (graph m) (active.*1) st')
                         (save sid st' (S k) (active.*1) store) in
              {| status := status r; final_store := final_store r;
                 trace := active.*1 :: trace r |}
          end
      end
  end.

(** Modelled from the spec: [invoke(initial partial State, session_id)].
    The prior checkpoint, if any, is merged under the initial State; a
    session whose checkpoint has steps left resumes there, any other run
    starts at the entry point. *)
Definition invoke (m : Machine) (fuel : nat) (init : State) (sid : string) (store : Store)
  : Run :=
  match load sid store with
  | None =>
      match merge (registry m) ∅ [init] with
      | Merged st => exec m fuel sid 0 st [(entry (graph m), ∅)] store
      | SchemaConflict field =>
          {| status := Failed (MergeConflict field); final_store := store; trace := [] |}
      end
  | Some ck =>
      match merge (registry m) (ck_state ck) [init] with
      | Merged st =>
          match next_active (graph m) (ck_steps ck) st with
          | [] => exec m fuel sid (ck_superstep ck) st [(entry (graph m), ∅)] store
          | active => exec m fuel sid (ck_superstep ck) st active store
          end
      | SchemaConflict field =>
          {| status := Failed (MergeConflict field); final_store := store; trace := [] |}
      end
  end.

End Executor.

(** ** The graph of OncoAgent *)

Module OncoGraph.
Import Orchestrator Executor.

(** Modelled from the spec: the edges of the compiled graph (graph.py is
    not among the sources).  The supervisor is the entry point and
    [route_after_supervisor] its conditional edge; the direct answers end
    the run; the fan-out is gathered by the aggregator and closed by the
    response builder, as in the example run of the specification. *)
Definition oncoagent_edges (s : string) : Successor :=
  if String.eqb s "supervisor" then Conditional Supervisor.route_after_supervisor
  else if Safety.mem s ["research"; "clinical_trials"; "vision"] then Fixed ["aggregator"]
  else if String.eqb s "aggregator" then Fixed ["response_builder"]
  else Fixed [].

Definition oncoagent_graph : Graph :=
  {| entry := "supervisor"; edges := oncoagent_edges |}.

(** Modelled from the spec: the reducers of state.py.  The fields that
    several branches of one superstep write are joined, the rest overwritten. *)
Definition oncoagent_registry : Registry :=
  list_to_map [("messages", Concatenate); ("evidence", Concatenate);
               ("clinical_trials", Concatenate); ("agents_completed", Concatenate)].

(** The Step Registry: the nodes of the sources by name. *)
Definition oncoagent_steps (w : World) (heap : Heap) (s : string) (st : State)
  : Res State :=
  if String.eqb s "supervisor" then Ok (Supervisor.supervisor w st)
  else if String.eqb s "direct_chat" then Agents.direct_chat_agent w st
  else if String.eqb s "context_responder" then Agents.context_responder w st
  else if String.eqb s "research" then Research.research_agent w st
  else if String.eqb s "clinical_trials" then Agents.clinical_trials_agent w st
  else if String.eqb s "vision" then Agents.vision_agent w st
  else if String.eqb s "aggregator" then Agents.aggregator st
  else if String.eqb s "response_builder" then Agents.response_builder w heap st
  else Raise "KeyError".

Definition oncoagent (w : World) (heap : Heap)
    (completion : nat -> list Outcome -> list Outcome) : Machine :=
  {| graph := oncoagent_graph;
     registry := oncoagent_registry;
     steps := oncoagent_steps w heap;
     completion := completion |}.

End OncoGraph.


(** ** Reference definitions and sample data for the properties *)

Module Reference.

(** What deduplication by URL means: a result is kept when no earlier
    result has its URL. *)
Fixpoint keep_first (results : list SearchResult) : list SearchResult :=
  match results with
  | [] => []
  | r :: rest => r :: filter (fun r' => url r' ≠ url r) (keep_first rest)
  end.

(** The result lists of the searches that did not raise, in query order. *)
Fixpoint successes (all_results : list (Res (list SearchResult))) : list SearchResult :=
  match all_results with
  | [] => []
  | Ok results :: rest => results ++ successes rest
  | Raise _ :: rest => successes rest
  end.

(** A run with the trace of the supersteps that came before it. *)
Definition after (before : list (list string)) (r : Executor.Run) : Executor.Run :=
  {| Executor.status := Executor.status r;
     Executor.final_store := Executor.final_store r;
     Executor.trace := before ++ Executor.trace r |}.

(** The names of the steps a decision dispatches. *)
Definition dispatched (d : RouteDecision) : list string := (Executor.active_of d).*1.

(** What a sequence of updates does to one field: each update that has
    the field reduces it into the value so far. *)
Definition field_step (r : Orchestrator.Reducer) (acc v : option Value) : option Value :=
  match v with
  | Some new =>
      Some (match acc with
            | Some old => Orchestrator.reduce r old new
            | None => new
            end)
  | None => acc
  end.

Definition field_merge (r : Orchestrator.Reducer) (b : option Value)
    (vs : list (option Value)) : option Value :=
  foldl (field_step r) b vs.

(** A field holds a set, or is absent. *)
Definition set_or_absent (v : option Value) : Prop :=
  match v with
  | Some (VSet _) | None => True
  | Some _ => False
  end.

End Reference.

Module Sample.

(** A world in which the keys are configured and every service answers. *)
Definition world : World := {|
  anthropic_api_key := Some "sk-ant";
  openai_api_key := Some "sk-oai";
  llm_classify := fun _ _ => Some "research_required";
  llm_queries := fun query _ => Ok query;
  exa_search := fun _ => Ok [];
  llm_chat := fun _ => Ok "Hola";
  llm_context := fun _ _ _ => Ok "As discussed";
  llm_validate := fun _ _ => Ok "Uncertain: the evidence is thin.";
  llm_respond := fun _ _ _ _ => Ok "Answer";
  analyze_medical_image := fun _ _ => Ok VNone;
  search_trials := fun _ => Ok [];
  utc_now := "2026-01-01T00:00:00+00:00";
  uuid4 := "0b0e7a52-6f0c-4d0e-9d43-0c1c5f2a9e11";
  b64decode := fun payload => Ok payload;
|}.

(** Completion in the reverse of the dispatch order. *)
Definition last_first (k : nat) (l : list Executor.Outcome) : list Executor.Outcome :=
  reverse l.

Definition machine : Executor.Machine := OncoGraph.oncoagent world ∅ last_first.

Definition drug_query : State := {[ "original_query" := VStr "drug X dosing" ]}.

(** The same world without the Anthropic key: the direct chat raises. *)
Definition keyless_world : World := {|
  anthropic_api_key := None;
  openai_api_key := openai_api_key world;
  llm_classify := llm_classify world;
  llm_queries := llm_queries world;
  exa_search := exa_search world;
  llm_chat := llm_chat world;
  llm_context := llm_context world;
  llm_validate := llm_validate world;
  llm_respond := llm_respond world;
  analyze_medical_image := analyze_medical_image world;
  search_trials := search_trials world;
  utc_now := utc_now world;
  uuid4 := uuid4 world;
  b64decode := b64decode world;
|}.

Definition keyless_machine : Executor.Machine :=
  OncoGraph.oncoagent keyless_world ∅ last_first.

(** A superstep of two branches, and the store one earlier superstep left. *)
Definition two_branches : list Send := [("research", ∅); ("direct_chat", ∅)].

Definition one_checkpoint : Executor.Store :=
  Executor.save "session" drug_query 1 ["supervisor"] ∅.

Definition greeting_query : State := {[ "original_query" := VStr "hola" ]}.

(** The State after the supervisor has classified the drug query. *)
Definition drug_classified : State :=
  <[ "query_type" := VStr "research_required" ]> drug_query.

(** The States the two example runs end with. *)
Definition drug_result : State :=
  list_to_map
    [("original_query", VStr "drug X dosing");
     ("query_type", VStr "research_required");
     ("evidence", VList []);
     ("agents_completed",
      VList [VStr "research"; VStr "aggregator"; VStr "response_builder"]);
     ("response", VStr "Answer");
     ("confidence_overall", VStr "UNCERTAIN")].

Definition greeting_result : State :=
  list_to_map
    [("original_query", VStr "hola");
     ("query_type", VStr "greeting");
     ("messages", VList [VMsg "ai" "Hola"]);
     ("response", VStr "Hola");
     ("confidence_overall", VStr "UNCERTAIN")].

(** A claim as the response pipeline leaves it, and a State that refers to it. *)
Definition claim : Claim := {|
  statement := "Osimertinib is given at 80 mg daily.";
  citations := [];
  confidence := "HIGH";
  cross_validated := false;
  validation_notes := None;
|}.

Definition claim_heap : Heap := {[ 0%nat := claim ]}.

Definition claim_state : State := {[ "claims" := VList [VRef 0] ]}.

(** Two updates of one superstep that both report a completed step. *)
Definition research_update : State :=
  {[ "agents_completed" := VList [VStr "research"] ]}.

Definition trials_update : State :=
  {[ "agents_completed" := VList [VStr "clinical_trials"] ]}.

(** A compiled graph that answers at once. *)
Definition answering (st : State) (thread : string) : Res (State * Heap) :=
  Ok (<["response" := VStr "Answer"]> (<["confidence_overall" := VStr "LOW"]> st), ∅).

Definition empty_thread_request : Routes.QueryRequest.t := {|
  Routes.QueryRequest.query := "drug X dosing";
  Routes.QueryRequest.thread_id := Some "";
  Routes.QueryRequest.cancer_type := None;
  Routes.QueryRequest.images := None;
|}.

Definition thread_request : Routes.QueryRequest.t := {|
  Routes.QueryRequest.query := "drug X dosing";
  Routes.QueryRequest.thread_id := Some "thread-7";
  Routes.QueryRequest.cancer_type := None;
  Routes.QueryRequest.images := None;
|}.

End Sample.


(** ** ui/streamlit_app.py: what the client sends *)

Module Streamlit.

(** The entry of [images_payload] for one uploaded file: the data URI of
    its MIME type and of its content in base64. *)
Definition image_payload (file_type data : string) : string :=
  "data:" +:+ file_type +:+ ";base64," +:+ data.

(** The JSON body of one turn: the thread id of the session, the cancer
    type unless it is empty, the images unless there are none. *)
Definition payload (session_thread : option string) (query cancer_type : string)
    (images_payload : list string) : Routes.QueryRequest.t :=
  {| Routes.QueryRequest.query := query;
     Routes.QueryRequest.thread_id := session_thread;
     Routes.QueryRequest.cancer_type :=
       if String.eqb cancer_type "" then None else Some cancer_type;
     Routes.QueryRequest.images :=
       match images_payload with [] => None | _ => Some images_payload end |}.

(** The thread id the session keeps after a response with status 200. *)
Definition next_thread (session_thread : option string) (r : Routes.QueryResponse.t)
  : option string :=
  Some (Routes.QueryResponse.thread_id r).

End Streamlit.

(** ** app/routes.py: the handler in its process
    routes.py compiles the graph once, when the module is loaded, and
    every request is answered by that one graph object, which keeps its
    checkpointer from one request to the next; [uuid.uuid4()] draws on the
    random source of the process. *)

Module Server.
Import Routes.

(** [_graph.ainvoke(initial_state, config)] with what the graph object
    holds between two invocations: from the State, the thread id of the
    config and what it holds, to the result and what it holds afterwards. *)
Definition CompiledGraph (G : Type) : Type :=
  State → string → G → Res (State * Heap) * G.

(** The images of a request, decoded. *)
Definition request_images (w : World) (request : QueryRequest.t) : Res (list Value) :=
  match QueryRequest.images request with
  | Some (img :: imgs) => decode_images w 0 (img :: imgs)
  | _ => Ok []
  end.

(** [query_oncoagent] on the graph object of the process: its answer, and
    what the graph holds after it.  The graph is invoked once, after the
    images are decoded, and not at all when decoding raises. *)
Definition handle {G} (w : World) (ainvoke : CompiledGraph G)
    (request : QueryRequest.t) (g : G) : Res QueryResponse.t * G :=
  (query_oncoagent w (fun st thread => (ainvoke st thread g).1) request,
   match request_images w request with
   | Ok images =>
       (ainvoke (initial_state request images)
          (str_or (QueryRequest.thread_id request) (uuid4 w)) g).2
   | Raise _ => g
   end).

(** The process: what its graph object holds, and how many identifiers
    [uuid.uuid4()] has drawn so far. *)
Record Process (G : Type) : Type := {
  compiled : G;
  drawn : nat;
}.
Arguments compiled {G} _.
Arguments drawn {G} _.

(** The world of one call, in which [uuid.uuid4()] yields [u]. *)
Definition with_uuid4 (w : World) (u : string) : World := {|
  anthropic_api_key := anthropic_api_key w;
  openai_api_key := openai_api_key w;
  llm_classify := llm_classify w;
  llm_queries := llm_queries w;
  exa_search := exa_search w;
  llm_chat := llm_chat w;
  llm_context := llm_context w;
  llm_validate := llm_validate w;
  llm_respond := llm_respond w;
  analyze_medical_image := analyze_medical_image w;
  search_trials := search_trials w;
  utc_now := utc_now w;
  uuid4 := u;
  b64decode := b64decode w;
|}.

(** [request.thread_id or str(uuid.uuid4())] evaluates its right operand,
    and so draws an identifier, exactly when the thread id is [None] or
    empty. *)
Definition draws (thread_id : option string) : bool :=
  match thread_id with
  | Some s => String.eqb s ""
  | None => true
  end.

(** One request served by the process; [uuids n] is the identifier of
    draw number [n]. *)
Definition serve {G} (uuids : nat → string) (w : World) (ainvoke : CompiledGraph G)
    (request : QueryRequest.t) (p : Process G) : Res QueryResponse.t * Process G :=
  let out := handle (with_uuid4 w (uuids (drawn p))) ainvoke request (compiled p) in
  (out.1,
   {| compiled := out.2;
      drawn := if draws (QueryRequest.thread_id request) then S (drawn p) else drawn p |}).

End Server.

(** ** safety.py: validate_claim *)

Module Validation.

Definition is_digit (c : ascii) : bool :=
  let n := nat_of_ascii c in ((48 <=? n) && (n <=? 57))%nat.

Definition snoc (s : string) (c : ascii) : string := s +:+ String c EmptyString.

(** Where the scan for the pattern of a number (digits, then optionally a
    dot and digits, then optionally a percent sign) stands: outside a
    number, in its integer part, after a dot that still needs a digit, or
    in its fraction. *)
Inductive Scan : Type :=
| Idle
| InInt (acc : string)
| AfterDot (acc : string)
| InFrac (acc : string).

(** [re.findall] for that pattern, from a state of the scan. *)
Fixpoint findall_from (st : Scan) (s : string) : list string :=
  match s with
  | EmptyString =>
      match st with
      | Idle => []
      | InInt acc | AfterDot acc | InFrac acc => [acc]
      end
  | String c s' =>
      match st with
      | Idle =>
          if is_digit c then findall_from (InInt (String c EmptyString)) s'
          else findall_from Idle s'
      | InInt acc =>
          if is_digit c then findall_from (InInt (snoc acc c)) s'
          else if Ascii.eqb c "." then findall_from (AfterDot acc) s'
          else if Ascii.eqb c "%" then snoc acc c :: findall_from Idle s'
          else acc :: findall_from Idle s'
      | AfterDot acc =>
          if is_digit c then findall_from (InFrac (snoc (snoc acc ".") c)) s'
          else acc :: findall_from Idle s'
      | InFrac acc =>
          if is_digit c then findall_from (InFrac (snoc acc c)) s'
          else if Ascii.eqb c "%" then snoc acc c :: findall_from Idle s'
          else acc :: findall_from Idle s'
      end
  end.

Definition findall_numbers : string -> list string := findall_from Idle.

(** [str(item.get("snippet", ""))] of one evidence item; [str_of] is the
    builtin [str]. *)
Definition snippet_text (str_of : Value -> string) (item : Value) : Res string :=
  match item with
  | VDict d => Ok (str_of (default (VStr "") (dict_get d "snippet")))
  | _ => Raise "AttributeError"
  end.

(** [any(num in str(item.get("snippet", "")) for item in evidence)]. *)
Fixpoint found_in (str_of : Value -> string) (num : string) (evidence : list Value)
  : Res bool :=
  match evidence with
  | [] => Ok false
  | item :: rest =>
      bind (snippet_text str_of item) (fun t =>
        if contains num t then Ok true else found_in str_of num rest)
  end.

(** The loop over the numbers of the claim. *)
Fixpoint check_numbers (str_of : Value -> string) (numbers : list string)
    (evidence : list Value) : Res (bool * string) :=
  match numbers with
  | [] => Ok (true, "OK")
  | num :: rest =>
      bind (found_in str_of num evidence) (fun found =>
        if found then check_numbers str_of rest evidence
        else Ok (false, "Number " +:+ num +:+ " not found in evidence"))
  end.

Definition validate_claim (str_of : Value -> string) (claim : string)
    (evidence : list Value) : Res (bool * string) :=
  check_numbers str_of (findall_numbers claim) evidence.

End Validation.

(** ** The router, operation by operation
    The router is handed a reference to the State dict.  Here its body is
    written out as the operations it performs on the objects of the
    interpreter, each of which is recorded: reading a key of a dict,
    creating a list, appending to a list, assigning to a key, calling a
    service. *)

Module Effects.

(** The objects the router deals with: State dicts, and lists of
    [Send(node, arg)] whose [arg] is a reference to a dict. *)
Inductive Object : Type :=
| ODict (d : State)
| OSends (sends : list (string * nat)).

Abbreviation Memory := (gmap nat Object).

(** What a function does, in the order it does it. *)
Inductive Event : Type :=
| Read (p : nat) (key : string)
| Alloc (p : nat)
| Write (p : nat)
| Call (service : string).

(** What a run leaves: the value returned or the exception raised, the
    memory, and the events. *)
Record Ran (A : Type) : Type := {
  returned : Res A;
  memory : Memory;
  events : list Event;
}.
Arguments returned {A} _.
Arguments memory {A} _.
Arguments events {A} _.

Definition M (A : Type) : Type := Memory → Ran A.

Definition ret {A} (a : A) : M A :=
  fun mem => {| returned := Ok a; memory := mem; events := [] |}.

Definition and_then {A B} (c : M A) (k : A → M B) : M B :=
  fun mem =>
    let r := c mem in
    match returned r with
    | Ok a =>
        let r' := k a (memory r) in
        {| returned := returned r'; memory := memory r';
           events := (events r ++ events r')%list |}
    | Raise e => {| returned := Raise e; memory := memory r; events := events r |}
    end.

(** [d.get(key, dflt)] on the dict at [p]. *)
Definition dict_get (p : nat) (key : string) (dflt : Value) : M Value :=
  fun mem =>
    {| returned := match mem !! p with
                   | Some (ODict d) => Ok (get d key dflt)
                   | _ => Raise "AttributeError"
                   end;
       memory := mem;
       events := [Read p key] |}.

(** [d[key] = v] on the dict at [p]. *)
Definition dict_set (p : nat) (key : string) (v : Value) : M unit :=
  fun mem =>
    match mem !! p with
    | Some (ODict d) =>
        {| returned := Ok tt; memory := <[p := ODict (<[key := v]> d)]> mem;
           events := [Write p] |}
    | _ => {| returned := Raise "TypeError"; memory := mem; events := [] |}
    end.

(** A list display: a new list object. *)
Definition new_sends (sends : list (string * nat)) : M nat :=
  fun mem =>
    let p := fresh (dom mem) in
    {| returned := Ok p; memory := <[p := OSends sends]> mem; events := [Alloc p] |}.

(** [l.append(send)] on the list at [p]. *)
Definition append (p : nat) (send : string * nat) : M unit :=
  fun mem =>
    match mem !! p with
    | Some (OSends sends) =>
        {| returned := Ok tt; memory := <[p := OSends (sends ++ [send])]> mem;
           events := [Write p] |}
    | _ => {| returned := Raise "AttributeError"; memory := mem; events := [] |}
    end.

(** A request to a service, a file, the clock or the environment. *)
Definition call (service : string) : M unit :=
  fun mem => {| returned := Ok tt; memory := mem; events := [Call service] |}.

(** [if b: c]. *)
Definition when (b : bool) (c : M unit) : M unit := if b then c else ret tt.

(** What the router returns: the name of a node, or its list of Sends. *)
Inductive Returned : Type :=
| Node (name : string)
| Sends (p : nat).

(** [route_after_supervisor(state)], statement by statement. *)
Definition route_after_supervisor (state : nat) : M Returned :=
  and_then (dict_get state "query_type" (VStr "research_required")) (fun intent =>
  if eq_str intent "greeting" then ret (Node "direct_chat")
  else if in_strs intent ["followup_with_context"; "repeated_question"]
  then ret (Node "context_responder")
  else
    and_then (new_sends [("research", state)]) (fun sends =>
    and_then (when (in_strs intent ["treatment"; "trial"])
                (append sends ("clinical_trials", state))) (fun _ =>
    and_then (dict_get state "images" VNone) (fun images =>
    and_then (when (truthy images) (append sends ("vision", state))) (fun _ =>
    ret (Sends sends)))))).

(** The decision a returned value stands for in a memory: each Send with
    the State its argument refers to. *)
Definition send_of (mem : Memory) (send : string * nat) : option Send :=
  match mem !! send.2 with
  | Some (ODict d) => Some (send.1, d)
  | _ => None
  end.

Definition decision_of (mem : Memory) (r : Returned) : option RouteDecision :=
  match r with
  | Node name => Some (Single name)
  | Sends p =>
      match mem !! p with
      | Some (OSends sends) => FanOut <$> mapM (send_of mem) sends
      | _ => None
      end
  end.

(** An event that stays within the call on the State at [state]: a read
    of that State, or the creation or the change of an object that the
    memory [mem] of before the call did not hold.  A call of a service
    and a write to an object of [mem] do not. *)
Definition confined (mem : Memory) (state : nat) (e : Event) : Prop :=
  match e with
  | Read p _ => p = state
  | Alloc p | Write p => p ∉ dom mem
  | Call _ => False
  end.

(** The Sends the router builds on the State [state] at [p]. *)
Definition sends_for (state : State) (p : nat) : list (string * nat) :=
  ([("research", p)]
   ++ (if in_strs (get state "query_type" (VStr "research_required")) ["treatment"; "trial"]
       then [("clinical_trials", p)] else [])
   ++ (if truthy (get state "images" VNone) then [("vision", p)] else []))%list.

End Effects.

(** ** Further reference definitions and sample data *)

Module Reference2.

(** The character does not occur in the string. *)
Fixpoint lacks (c : ascii) (s : string) : Prop :=
  match s with
  | EmptyString => True
  | String c' s' => c' ≠ c ∧ lacks c s'
  end.

(** The confidence levels in their order. *)
Definition rank (level : string) : nat :=
  if String.eqb level "HIGH" then 3
  else if String.eqb level "MEDIUM" then 2
  else if String.eqb level "LOW" then 1
  else 0.

(** The level for [n] sources of which [h] are of high quality. *)
Definition grade (n h : nat) : string :=
  if (3 <=? n)%nat && (2 <=? h)%nat then "HIGH"
  else if (2 <=? n)%nat && (1 <=? h)%nat then "MEDIUM"
  else if (1 <=? n)%nat then "LOW"
  else "UNCERTAIN".

(** An evidence item counts as of high quality. *)
Definition high_quality_evidence (e : Value) : bool :=
  in_strs (Safety.evidence_source_type e)
    ["fda"; "nccn"; "asco"; "esmo"; "nejm"; "lancet"; "pubmed"; "cochrane"].

(** A citation counts as of high quality. *)
Definition high_quality_citation (c : Citation) : bool :=
  Safety.mem (source_type c) ["pubmed"; "fda"; "nccn"].

(** The evidence entries whose source was recognised. *)
Definition recognised (evidence : list Evidence) : list Evidence :=
  filter (fun e => ev_source_type e ≠ "other") evidence.

(** The images of a list that carry data. *)
Definition has_data (img : Value) : bool :=
  match img with
  | VDict d => truthy (default VNone (dict_get d "data"))
  | _ => false
  end.

Definition with_data (images : list Value) : list Value := List.filter has_data images.

(** The State after a node returned a partial State that overwrites. *)
Definition overwritten (update state : State) : State := update ∪ state.

(** A claim the validator has handled, whatever it answered. *)
Definition handled (before after : Claim) : Prop :=
  statement after = statement before
  ∧ citations after = citations before
  ∧ (confidence after = confidence before ∨ confidence after = "UNCERTAIN").

(** The string has no digit. *)
Fixpoint digit_free (s : string) : Prop :=
  match s with
  | EmptyString => True
  | String c s' => Validation.is_digit c = false ∧ digit_free s'
  end.

(** The snippet texts of evidence items that are all dicts. *)
Definition snippet_texts (str_of : Value → string) (evidence : list Value) : list string :=
  omap (fun item =>
          match Validation.snippet_text str_of item with
          | Ok t => Some t
          | Raise _ => None
          end) evidence.

(** The number occurs in one of the texts. *)
Definition occurs (num : string) (texts : list string) : bool :=
  existsb (contains num) texts.

Definition is_dict (v : Value) : Prop := ∃ d, v = VDict d.

(** The result at position [i] is the first of the list with its URL. *)
Definition first_with_url (l : list SearchResult) (i : nat) (r : SearchResult) : Prop :=
  l !! i = Some r ∧ ∀ j r', (j < i)%nat → l !! j = Some r' → url r' ≠ url r.

(** What the searches of the research agent returned on a State: the
    results of the queries whose search did not raise, in query order. *)
Definition searched (w : World) (state : State) : list SearchResult :=
  Reference.successes
    (Research.search_medical_sources w <$>
       Research.search_queries w
         (as_str (default VNone (state !! "original_query")))
         (get state "messages" (VList []))).

(** A router that answers Terminal wherever the given one answers an
    empty fan-out, and a graph whose routers are all changed so. *)
Definition empty_as_terminal (router : State → RouteDecision) (st : State)
  : RouteDecision :=
  match router st with
  | FanOut [] => Terminal
  | decision => decision
  end.

Definition terminal_edges (g : Executor.Graph) : Executor.Graph :=
  {| Executor.entry := Executor.entry g;
     Executor.edges := fun s =>
       match Executor.edges g s with
       | Executor.Fixed next => Executor.Fixed next
       | Executor.Conditional router => Executor.Conditional (empty_as_terminal router)
       end |}.

(** The same Executor on another graph. *)
Definition with_graph (m : Executor.Machine) (g : Executor.Graph) : Executor.Machine :=
  {| Executor.graph := g;
     Executor.registry := Executor.registry m;
     Executor.steps := Executor.steps m;
     Executor.completion := Executor.completion m |}.

(** A compiled graph that also keeps the thread ids it was invoked
    under, in order. *)
Definition logging {G} (ainvoke : Server.CompiledGraph G)
  : Server.CompiledGraph (list string * G) :=
  fun st thread held =>
    let r := ainvoke st thread held.2 in (r.1, ((held.1 ++ [thread])%list, r.2)).

(** The thread ids the graph of a process was invoked under so far. *)
Definition threads {G} (p : Server.Process (list string * G)) : list string :=
  (Server.compiled p).1.

(** The same request under a given thread id. *)
Definition with_thread (request : Routes.QueryRequest.t) (thread : string)
  : Routes.QueryRequest.t :=
  {| Routes.QueryRequest.query := Routes.QueryRequest.query request;
     Routes.QueryRequest.thread_id := Some thread;
     Routes.QueryRequest.cancer_type := Routes.QueryRequest.cancer_type request;
     Routes.QueryRequest.images := Routes.QueryRequest.images request |}.

(** The request has no thread id, or an empty one. *)
Definition unusable (thread_id : option string) : Prop :=
  thread_id = None ∨ thread_id = Some "".

(** The lines of the answer of the query model. *)
Definition answer_lines (content : string) : list string :=
  split_on (ascii_of_nat 10) (strip content).

(** The entry the vision agent makes of one image: its path and its type,
    and what the model answered on its data and its MIME type. *)
Definition analysed (w : World) (img entry : Value) : Prop :=
  ∃ d analysis,
    img = VDict d
    ∧ analyze_medical_image w (default VNone (dict_get d "data"))
        (default (VStr "image/jpeg") (dict_get d "mime_type")) = Ok analysis
    ∧ entry = VDict [("path", default VNone (dict_get d "path"));
                     ("type", default VNone (dict_get d "type"));
                     ("analysis", analysis)].

End Reference2.

Module Sample2.

(** A world whose validating model fails on one statement. *)
Definition flaky_world : World := {|
  anthropic_api_key := anthropic_api_key Sample.world;
  openai_api_key := openai_api_key Sample.world;
  llm_classify := llm_classify Sample.world;
  llm_queries := llm_queries Sample.world;
  exa_search := exa_search Sample.world;
  llm_chat := llm_chat Sample.world;
  llm_context := llm_context Sample.world;
  llm_validate := fun statement _ =>
    if String.eqb statement "Second" then Raise "APIError" else Ok "SUPPORTED";
  llm_respond := llm_respond Sample.world;
  analyze_medical_image := analyze_medical_image Sample.world;
  search_trials := search_trials Sample.world;
  utc_now := utc_now Sample.world;
  uuid4 := uuid4 Sample.world;
  b64decode := b64decode Sample.world;
|}.

Definition first_claim : Claim := {|
  statement := "First"; citations := []; confidence := "HIGH";
  cross_validated := false; validation_notes := None |}.

Definition second_claim : Claim := {|
  statement := "Second"; citations := []; confidence := "LOW";
  cross_validated := false; validation_notes := None |}.

Definition two_claims_heap : Heap := {[ 0%nat := first_claim; 1%nat := second_claim ]}.

Definition two_claims_state : State := {[ "claims" := VList [VRef 0; VRef 1] ]}.

(** Search results with a repeated URL. *)
Definition result_at (u : string) : SearchResult :=
  {| url := u; title := "t"; highlights := []; summary := ""; text := ""; id := u |}.

Definition gathered : list (Res (list SearchResult)) :=
  [Ok [result_at "https://pubmed.ncbi.nlm.nih.gov/1"; result_at "https://www.fda.gov/x"];
   Raise "timeout";
   Ok [result_at "https://pubmed.ncbi.nlm.nih.gov/1"; result_at "https://example.org/y"]].

(** A world whose query model answers three queries, and whose search
    fails on the second and repeats a URL on the third. *)
Definition item_at (u : string) : ExaItem :=
  {| item_url := u; item_title := "t"; item_highlights := None;
     item_summary := EmptyString; item_text := EmptyString; item_id := u |}.

Definition newline : string := String (ascii_of_nat 10) EmptyString.

Definition searching_world : World := {|
  anthropic_api_key := anthropic_api_key Sample.world;
  openai_api_key := openai_api_key Sample.world;
  llm_classify := llm_classify Sample.world;
  llm_queries := fun _ _ => Ok ("first" +:+ newline +:+ "second" +:+ newline +:+ "third");
  exa_search := fun query =>
    if String.eqb query "first"
    then Ok [item_at "https://pubmed.ncbi.nlm.nih.gov/1"; item_at "https://www.fda.gov/x"]
    else if String.eqb query "second" then Raise "timeout"
    else Ok [item_at "https://pubmed.ncbi.nlm.nih.gov/1"; item_at "https://example.org/y"];
  llm_chat := llm_chat Sample.world;
  llm_context := llm_context Sample.world;
  llm_validate := llm_validate Sample.world;
  llm_respond := llm_respond Sample.world;
  analyze_medical_image := analyze_medical_image Sample.world;
  search_trials := search_trials Sample.world;
  utc_now := utc_now Sample.world;
  uuid4 := uuid4 Sample.world;
  b64decode := b64decode Sample.world;
|}.

(** A decision node whose router dispatches nothing once the State holds
    a response, on the steps of OncoAgent. *)
Definition route_unanswered (st : State) : RouteDecision :=
  FanOut (if truthy (get st "response" VNone) then [] else [("research", st)]).

Definition answering_graph : Executor.Graph :=
  {| Executor.entry := "direct_chat";
     Executor.edges := fun s =>
       if String.eqb s "direct_chat" then Executor.Conditional route_unanswered
       else Executor.Fixed [] |}.

Definition answering_machine : Executor.Machine :=
  Reference2.with_graph Sample.machine answering_graph.

(** The State after the direct chat has answered the greeting. *)
Definition answered : State :=
  list_to_map
    [("original_query", VStr "hola");
     ("messages", VList [VMsg "ai" "Hola"]);
     ("response", VStr "Hola");
     ("confidence_overall", VStr "UNCERTAIN")].

(** The States of the run of the drug query: after the research agent
    returned its evidence, after the aggregator, and after the response
    builder answered. *)
Definition drug_researched (evidence : list Value) : State :=
  list_to_map
    [("original_query", VStr "drug X dosing");
     ("query_type", VStr "research_required");
     ("evidence", VList evidence);
     ("agents_completed", VList [VStr "research"])].

Definition drug_aggregated (evidence : list Value) : State :=
  list_to_map
    [("original_query", VStr "drug X dosing");
     ("query_type", VStr "research_required");
     ("evidence", VList evidence);
     ("agents_completed", VList [VStr "research"; VStr "aggregator"])].

Definition drug_answered (evidence : list Value) (content confidence : string) : State :=
  list_to_map
    [("original_query", VStr "drug X dosing");
     ("query_type", VStr "research_required");
     ("evidence", VList evidence);
     ("agents_completed",
      VList [VStr "research"; VStr "aggregator"; VStr "response_builder"]);
     ("response", VStr content);
     ("confidence_overall", VStr confidence)].

(** A memory that holds the classified drug query and another State. *)
Definition two_states : Effects.Memory :=
  {[ 0%nat := Effects.ODict Sample.greeting_query;
     1%nat := Effects.ODict Sample.drug_classified ]}.

(** The first request of a session, as the user interface sends it. *)
Definition first_request : Routes.QueryRequest.t :=
  Streamlit.payload None "drug X dosing" "" [].

(** A process that has served no request yet, a graph object that holds
    nothing and answers at once, and identifiers that are numbered. *)
Definition numbered (n : nat) : string := "uuid-" +:+ pretty n.

Definition answering_service : Server.CompiledGraph unit :=
  fun st thread held => (Sample.answering st thread, held).

Definition started : Server.Process (list string * unit) :=
  {| Server.compiled := ([], tt); Server.drawn := 0 |}.

(** A State routed to the context responder. *)
Definition repeated_state : State :=
  {[ "query_type" := VStr "repeated_question"; "original_query" := VStr "again?" ]}.

(** The evidence of the safety tests, whose snippets are strings. *)
Definition test_evidence : list Value :=
  [VDict [("snippet", VStr "Response rate was 25% in phase 2.")]].

(** A State that holds the evidence the research agent made of them. *)
Definition researched_state : State :=
  {[ "original_query" := VStr "drug X dosing";
     "evidence" :=
       VList (evidence_value <$> Research.collect_evidence "2026-01-01" gathered) ]}.

(** A request whose upload is a data URI without a comma. *)
Definition broken_upload_request : Routes.QueryRequest.t :=
  Streamlit.payload None "what is on this scan?" "" ["data:image/png;base64"].

End Sample2.

(** * Properties *)

Import Orchestrator Executor OncoGraph Reference.

(** ** The string helpers and the classifiers on examples *)

Example split_runs : split " a  bc d " = ["a"; "bc"; "d"].
Proof. reflexivity. Qed.

Example strip_both_ends : strip "  a b  " = "a b".
Proof. reflexivity. Qed.

Example contains_inside : contains "hi" "anything" = true ∧ contains "hi" "drug x" = false.
Proof. split; reflexivity. Qed.

Example classify_drug_query :
  Supervisor._classify_intent_simple "drug X dosing" = "research_required".
Proof. reflexivity. Qed.

Example classify_greeting :
  Supervisor._classify_intent_simple "  Hola doctor " = "greeting".
Proof. reflexivity. Qed.

Example infer_drug_query : Routes._infer_query_type "drug X dosing" = "drug".
Proof. reflexivity. Qed.

Example decode_data_uri :
  Routes._decode_image Sample.world "data:image/png;base64,QUJD" 2
  = Ok (VDict [("path", VStr "uploaded-2"); ("type", VStr "uploaded");
               ("data", VStr "QUJD"); ("mime_type", VStr "image/png")]).
Proof. reflexivity. Qed.

Example confidence_from_two_sources :
  Safety.calculate_confidence_from_evidence
    [VDict [("source_type", VStr "fda")]; VDict [("source_type", VStr "other")]]
  = "MEDIUM".
Proof. reflexivity. Qed.

(** ** The router *)

Section Router.
Import Supervisor.

(** The decisions [route_after_supervisor] can take. *)
Lemma route_after_supervisor_cases (state : State) :
  route_after_supervisor state = Single "direct_chat" ∨
  route_after_supervisor state = Single "context_responder" ∨
  ∃ rest, route_after_supervisor state = FanOut (("research", state) :: rest)
          ∧ (length rest ≤ 2)%nat ∧ Forall (fun b => b.2 = state) rest.
Proof.
  unfold route_after_supervisor.
  destruct (eq_str _ "greeting"); [by left|].
  destruct (in_strs _ ["followup_with_context"; "repeated_question"]); [by right; left|].
  right; right.
  destruct (in_strs _ ["treatment"; "trial"]), (truthy _); simpl;
    eexists; (split; [reflexivity|]); split; simpl; try lia;
    repeat constructor.
Qed.

(** The router never ends a run by itself. *)
Lemma route_after_supervisor_active (state : State) :
  route_after_supervisor state ≠ Terminal ∧ active_of (route_after_supervisor state) ≠ [].
Proof.
  destruct (route_after_supervisor_cases state) as [-> | [-> | (rest & -> & _)]];
    by split.
Qed.

(** A run whose active set is empty has ended: its State is the result, the
    store is untouched and no step is dispatched, whatever the fuel. *)
Lemma exec_no_active (m : Machine) fuel sid k (st : State) store :
  exec m fuel sid k st [] store =
    {| status := ReachedTerminal st; final_store := store; trace := [] |}.
Proof. by destruct fuel. Qed.

(** At a decision node the active set is what its router answers. *)
Lemma next_active_decision (g : Graph) (d : string) router (st : State) :
  edges g d = Conditional router →
  next_active g [d] st = active_of (router st).
Proof.
  intros E. unfold next_active. simpl. rewrite E. simpl.
  by rewrite app_nil_r.
Qed.

(** The steps a decision dispatches depend on two things only: the
    [query_type] field and whether [images] is true. *)
Lemma route_after_supervisor_reads (s1 s2 : State) :
  s1 !! "query_type" = s2 !! "query_type" →
  truthy (get s1 "images" VNone) = truthy (get s2 "images" VNone) →
  dispatched (route_after_supervisor s1) = dispatched (route_after_supervisor s2).
Proof.
  intros Hq Hi. unfold route_after_supervisor, get in *. rewrite <- Hq, <- Hi.
  destruct (eq_str _ "greeting"); [done|].
  destruct (in_strs _ ["followup_with_context"; "repeated_question"]); [done|].
  destruct (in_strs _ ["treatment"; "trial"]),
    (truthy (default VNone (s1 !! "images"))); reflexivity.
Qed.

End Router.

(** ** The router has no effect *)

Section Purity.
Import Effects.

(** What a run of the router leaves, in full. *)
Lemma route_ran (mem : Memory) (p : nat) (state : State) :
  mem !! p = Some (ODict state) →
  Effects.route_after_supervisor p mem
  = (let intent := get state "query_type" (VStr "research_required") in
     if eq_str intent "greeting"
     then {| returned := Ok (Node "direct_chat"); memory := mem;
             events := [Read p "query_type"] |}
     else if in_strs intent ["followup_with_context"; "repeated_question"]
     then {| returned := Ok (Node "context_responder"); memory := mem;
             events := [Read p "query_type"] |}
     else
       {| returned := Ok (Sends (fresh (dom mem)));
          memory := <[fresh (dom mem) := OSends (sends_for state p)]> mem;
          events :=
            [Read p "query_type"; Alloc (fresh (dom mem))]
            ++ (if in_strs intent ["treatment"; "trial"]
                then [Write (fresh (dom mem))] else [])
            ++ [Read p "images"]
            ++ (if truthy (get state "images" VNone)
                then [Write (fresh (dom mem))] else []) |}).
Proof.
  intros Hp.
  pose proof (is_fresh (dom mem)) as Hfresh.
  set (l := fresh (dom mem)) in *.
  assert (Hlp : l ≠ p) by (intros ->; apply Hfresh; by apply elem_of_dom).
  unfold Effects.route_after_supervisor, sends_for.
  unfold and_then at 1. unfold dict_get at 1. cbn [returned memory events].
  rewrite Hp. cbv zeta.
  destruct (eq_str _ "greeting"); [reflexivity|].
  destruct (in_strs _ ["followup_with_context"; "repeated_question"]); [reflexivity|].
  unfold and_then, new_sends, when, append, dict_get, ret. cbn [returned memory events].
  fold l.
  destruct (in_strs _ ["treatment"; "trial"]); cbn [returned memory events].
  - rewrite lookup_insert_eq. cbn [returned memory events].
    rewrite insert_insert_eq, lookup_insert_ne, Hp by done.
    destruct (truthy _); cbn [returned memory events].
    + rewrite lookup_insert_eq. cbn [returned memory events]. rewrite insert_insert_eq.
      reflexivity.
    + reflexivity.
  - rewrite lookup_insert_ne, Hp by done.
    destruct (truthy _); cbn [returned memory events].
    + rewrite lookup_insert_eq. cbn [returned memory events]. rewrite insert_insert_eq.
      reflexivity.
    + reflexivity.
Qed.

(** The router returns, what it returns stands for the decision the
    content of the State determines, and it touches nothing but objects
    of its own. *)
Lemma route_runs (mem : Memory) (p : nat) (state : State) :
  mem !! p = Some (ODict state) →
  ∃ r, returned (Effects.route_after_supervisor p mem) = Ok r
       ∧ decision_of (memory (Effects.route_after_supervisor p mem)) r
         = Some (Supervisor.route_after_supervisor state)
       ∧ Forall (confined mem p) (events (Effects.route_after_supervisor p mem))
       ∧ (∀ q, q ∈ dom mem → memory (Effects.route_after_supervisor p mem) !! q = mem !! q)
       ∧ (∀ l sends, r = Sends l →
            memory (Effects.route_after_supervisor p mem) !! l = Some (OSends sends) →
            Forall (fun b => b.2 = p) sends).
Proof.
  intros Hp. rewrite (route_ran mem p state Hp). cbv zeta.
  pose proof (is_fresh (dom mem)) as Hfresh.
  set (l := fresh (dom mem)) in *.
  assert (Hlp : l ≠ p) by (intros ->; apply Hfresh; by apply elem_of_dom).
  unfold Supervisor.route_after_supervisor.
  destruct (eq_str _ "greeting").
  { eexists. split; [reflexivity|]. split; [reflexivity|]. split; [by repeat constructor|].
    split; [done|]. intros ?? [=]. }
  destruct (in_strs _ ["followup_with_context"; "repeated_question"]).
  { eexists. split; [reflexivity|]. split; [reflexivity|]. split; [by repeat constructor|].
    split; [done|]. intros ?? [=]. }
  eexists. split; [reflexivity|]. cbn [memory events returned].
  assert (Hsend : ∀ node, send_of (<[l := OSends (sends_for state p)]> mem) (node, p)
                          = Some (node, state)).
  { intros node. unfold send_of. cbn [fst snd]. by rewrite lookup_insert_ne, Hp. }
  split; [|split; [|split]].
  - unfold decision_of. rewrite lookup_insert_eq.
    set (mem' := <[l := OSends (sends_for state p)]> mem) in *.
    unfold sends_for.
    destruct (in_strs _ ["treatment"; "trial"]), (truthy _); simpl;
      rewrite !Hsend; reflexivity.
  - destruct (in_strs _ ["treatment"; "trial"]), (truthy _); cbn [app];
      repeat constructor; done.
  - intros q Hq. apply lookup_insert_ne. intros <-. by apply Hfresh.
  - intros l' sends [= <-]. rewrite lookup_insert_eq. intros [= <-].
    unfold sends_for.
    destruct (in_strs _ ["treatment"; "trial"]), (truthy _); cbn [app];
      by repeat constructor.
Qed.

(** The effects the router does not have are recorded when they occur: a
    call of a service and an assignment to a key of the State are events
    that are not confined, and the assignment changes the State. *)
Lemma effects_are_recorded (mem : Memory) (p : nat) (state : State)
    (service key : string) (v : Value) :
  mem !! p = Some (ODict state) →
  ¬ Forall (confined mem p) (events (call service mem))
  ∧ ¬ Forall (confined mem p) (events (dict_set p key v mem))
  ∧ memory (dict_set p key v mem) !! p = Some (ODict (<[key := v]> state)).
Proof.
  intros Hp. unfold call, dict_set. rewrite Hp. cbn [events memory].
  split; [|split].
  - by intros [H _]%Forall_cons.
  - intros [H _]%Forall_cons. apply H. by apply elem_of_dom.
  - apply lookup_insert_eq.
Qed.

(** C4. [route_after_supervisor] is a pure, deterministic function of the
    State.  Run on a reference to the State in any memory, it returns the
    decision that the content of the State determines; all it does is
    read the State and build a list of its own: it calls no service, and
    every object the memory held, the State among them, is as it was.
    Evaluated a second time, in the memory the first evaluation left, and
    evaluated in any other memory on an equal State, it returns an equal
    decision.  The steps it names are determined by [query_type] and the
    truth of [images], and every Send it builds refers to the State it
    was given. *)
Theorem route_after_supervisor_pure (mem : Memory) (p : nat) (state : State) :
  mem !! p = Some (ODict state) →
  (∃ r, returned (Effects.route_after_supervisor p mem) = Ok r
        ∧ decision_of (memory (Effects.route_after_supervisor p mem)) r
          = Some (Supervisor.route_after_supervisor state))
  ∧ Forall (confined mem p) (events (Effects.route_after_supervisor p mem))
  ∧ (∀ q, q ∈ dom mem → memory (Effects.route_after_supervisor p mem) !! q = mem !! q)
  ∧ (∃ r, returned (Effects.route_after_supervisor p
                      (memory (Effects.route_after_supervisor p mem))) = Ok r
          ∧ decision_of
              (memory (Effects.route_after_supervisor p
                         (memory (Effects.route_after_supervisor p mem)))) r
            = Some (Supervisor.route_after_supervisor state))
  ∧ (∀ mem2 p2, mem2 !! p2 = Some (ODict state) →
       ∃ r, returned (Effects.route_after_supervisor p2 mem2) = Ok r
            ∧ decision_of (memory (Effects.route_after_supervisor p2 mem2)) r
              = Some (Supervisor.route_after_supervisor state))
  ∧ (∀ s3 : State,
       state !! "query_type" = s3 !! "query_type" →
       truthy (get state "images" VNone) = truthy (get s3 "images" VNone) →
       dispatched (Supervisor.route_after_supervisor state)
       = dispatched (Supervisor.route_after_supervisor s3))
  ∧ (∀ l sends,
       returned (Effects.route_after_supervisor p mem) = Ok (Sends l) →
       memory (Effects.route_after_supervisor p mem) !! l = Some (OSends sends) →
       Forall (fun b => b.2 = p) sends).
Proof.
  intros Hp.
  destruct (route_runs mem p state Hp) as (r & Hr & Hdec & Hev & Hframe & Hsends).
  assert (Hp' : memory (Effects.route_after_supervisor p mem) !! p = Some (ODict state)).
  { rewrite Hframe; [done|]. by apply elem_of_dom. }
  split; [eauto|]. split; [done|]. split; [done|]. split; [|split; [|split]].
  - destruct (route_runs _ p state Hp') as (r' & Hr' & Hdec' & _). eauto.
  - intros mem2 p2 Hp2.
    destruct (route_runs mem2 p2 state Hp2) as (r2 & Hr2 & Hdec2 & _). eauto.
  - intros s3. apply route_after_supervisor_reads.
  - intros l sends Hl. rewrite Hr in Hl. injection Hl as ->. by apply Hsends.
Qed.

Lemma route_after_supervisor_pure_witness :
  ∃ r, returned (Effects.route_after_supervisor 1 Sample2.two_states) = Ok r
       ∧ decision_of (memory (Effects.route_after_supervisor 1 Sample2.two_states)) r
         = Some (FanOut [("research", Sample.drug_classified)]).
Proof.
  exact (proj1 (route_after_supervisor_pure Sample2.two_states 1 Sample.drug_classified
                  ltac:(vm_compute; reflexivity))).
Defined.

End Purity.

(** ** The research agent: deduplication by URL *)

Section Dedup.
Import Research Reference2.

Lemma filter_all {A} (P : A → Prop) `{!∀ x, Decision (P x)} (l : list A) :
  (∀ x, P x) → filter P l = l.
Proof.
  intros HP. induction l as [|x l IH]; [done|].
  by rewrite filter_cons_True, IH.
Qed.

Lemma keep_first_app (a b : list SearchResult) :
  keep_first (a ++ b) =
    (keep_first a ++ filter (fun r => url r ∉ url <$> a) (keep_first b))%list.
Proof.
  induction a as [|x a IH]; simpl.
  - symmetry. apply filter_all. intros r. apply not_elem_of_nil.
  - f_equal. rewrite IH, filter_app. f_equal.
    rewrite list_filter_filter. apply list_filter_iff.
    intros r. rewrite not_elem_of_cons. naive_solver.
Qed.

Lemma keep_first_NoDup (l : list SearchResult) : NoDup (url <$> keep_first l).
Proof.
  induction l as [|r l IH]; simpl; [constructor|].
  apply NoDup_cons. split.
  - intros (x & Hu & Hx)%list_elem_of_fmap.
    apply list_elem_of_filter in Hx as [Hne _]. by apply Hne.
  - eapply sublist_NoDup; [exact IH | apply fmap_sublist, sublist_filter].
Qed.

(** The inner loop keeps, of the results of one query, the first of each
    URL that was not seen before. *)
Lemma dedup_results_spec now (results : list SearchResult) seen (ev : list Evidence) :
  dedup_results now results (seen, ev) =
    (list_to_set (url <$> results) ∪ seen,
     (ev ++ (make_evidence now <$>
               filter (fun r => url r ∉ seen) (keep_first results)))%list).
Proof.
  revert seen ev. induction results as [|r rest IH]; intros seen ev; simpl.
  - f_equal; [set_solver | by rewrite app_nil_r].
  - case_bool_decide as Hin.
    + rewrite IH. f_equal; [set_solver|]. f_equal. f_equal.
      rewrite filter_cons_False by (intros Hn; by apply Hn).
      rewrite list_filter_filter. apply list_filter_iff.
      intros x. split; [|naive_solver].
      intros Hx. split; [done|]. intros E. apply Hx. by rewrite E.
    + rewrite IH. f_equal; [set_solver|].
      rewrite filter_cons_True by done. rewrite fmap_cons, <- app_assoc. simpl.
      do 3 f_equal. rewrite list_filter_filter. apply list_filter_iff.
      intros x. set_solver.
Qed.

(** The outer loop does the same over the results of all the queries that
    did not raise. *)
Lemma dedup_all_spec now (all_results : list (Res (list SearchResult))) seen
    (ev : list Evidence) :
  dedup_all now all_results (seen, ev) =
    (list_to_set (url <$> successes all_results) ∪ seen,
     (ev ++ (make_evidence now <$>
               filter (fun r => url r ∉ seen) (keep_first (successes all_results))))%list).
Proof.
  revert seen ev. induction all_results as [|[results|e] rest IH]; intros seen ev; simpl.
  - f_equal; [set_solver | by rewrite app_nil_r].
  - rewrite dedup_results_spec, IH. f_equal.
    + rewrite fmap_app, list_to_set_app_L. set_solver.
    + rewrite <- app_assoc. f_equal. rewrite <- fmap_app. f_equal.
      rewrite keep_first_app, filter_app. f_equal.
      rewrite list_filter_filter. apply list_filter_iff.
      intros x. rewrite not_elem_of_union, elem_of_list_to_set. naive_solver.
  - apply IH.
Qed.

Lemma collect_evidence_spec now (all_results : list (Res (list SearchResult))) :
  collect_evidence now all_results =
    make_evidence now <$> keep_first (successes all_results).
Proof.
  unfold collect_evidence. rewrite dedup_all_spec. simpl. f_equal.
  apply filter_all. intros r. apply not_elem_of_empty.
Qed.

Lemma collect_evidence_NoDup now (all_results : list (Res (list SearchResult))) :
  NoDup (source <$> collect_evidence now all_results).
Proof.
  rewrite collect_evidence_spec, <- list_fmap_compose.
  apply (keep_first_NoDup (successes all_results)).
Qed.

Lemma successes_app (a b : list (Res (list SearchResult))) :
  successes (a ++ b) = (successes a ++ successes b)%list.
Proof.
  induction a as [|[r|e] a IH]; simpl; [done| |done].
  by rewrite IH, app_assoc.
Qed.

(** A result is kept exactly when it is the first of the list with its URL. *)
Lemma keep_first_first_with_url (results : list SearchResult) (r : SearchResult) :
  r ∈ keep_first results ↔ ∃ i, first_with_url results i r.
Proof.
  revert r. induction results as [|x rest IH]; intros r; simpl.
  { split; [by intros ?%elem_of_nil | by intros (i & ? & _)]. }
  rewrite elem_of_cons, list_elem_of_filter, IH. split.
  - intros [-> | (Hne & i & Hi & Hfirst)].
    + exists 0%nat. split; [done|]. intros j r' Hj. lia.
    + exists (S i). split; [done|]. intros [|j] r' Hj Hr'.
      * simpl in Hr'. by injection Hr' as <-.
      * apply (Hfirst j); [lia | done].
  - intros ([|i] & Hi & Hfirst).
    + left. simpl in Hi. by injection Hi.
    + right. split.
      * intros E. by apply (Hfirst 0%nat x); [lia | |].
      * exists i. split; [done|]. intros j r' Hj Hr'.
        apply (Hfirst (S j)); [lia | done].
Qed.

Lemma keep_first_sublist (results : list SearchResult) :
  keep_first results `sublist_of` results.
Proof.
  induction results as [|x rest IH]; simpl; [done|].
  apply sublist_skip. etrans; [apply sublist_filter | exact IH].
Qed.

(** The results of the searches that returned are those of the queries
    whose search did not raise. *)
Lemma elem_of_successes {A} (search : A → Res (list SearchResult)) (queries : list A)
    (r : SearchResult) :
  r ∈ successes (search <$> queries)
  ↔ ∃ query results, query ∈ queries ∧ search query = Ok results ∧ r ∈ results.
Proof.
  induction queries as [|query rest IH]; simpl.
  { split; [by intros ?%elem_of_nil | by intros (? & ? & ?%elem_of_nil & _)]. }
  destruct (search query) as [results|e] eqn:E.
  - rewrite elem_of_app, IH. split.
    + intros [Hr | (query' & results' & Hin & Hs & Hr)].
      * exists query, results. by rewrite elem_of_cons; eauto.
      * exists query', results'. rewrite elem_of_cons. eauto.
    + intros (query' & results' & [->|Hin]%elem_of_cons & Hs & Hr).
      * left. congruence.
      * right. eauto.
  - rewrite IH. split.
    + intros (query' & results' & Hin & Hs & Hr).
      exists query', results'. rewrite elem_of_cons. eauto.
    + intros (query' & results' & [->|Hin]%elem_of_cons & Hs & Hr); [congruence|eauto].
Qed.

(** C9. What [research_agent] returns on a State with a query: the evidence
    made of the results of its searches, one search per query of
    [search_queries], gathered in query order.  The source URLs of the
    evidence are pairwise distinct; an entry is kept exactly for the first
    result with its URL, in the order of the results; and the results are
    those of the queries whose search did not raise, so that a query whose
    search raised contributes no entry. *)
Theorem research_evidence_deduplicated (w : World) (state : State) (q : Value) :
  state !! "original_query" = Some q →
  ∃ evidence : list Evidence,
    research_agent w state
    = Ok ({[ "evidence" := VList (evidence_value <$> evidence);
             "agents_completed" := VList [VStr "research"] ]} : State)
    ∧ NoDup (source <$> evidence)
    ∧ evidence = make_evidence (utc_now w) <$> keep_first (searched w state)
    ∧ evidence `sublist_of` make_evidence (utc_now w) <$> searched w state
    ∧ (∀ r, r ∈ keep_first (searched w state)
            ↔ ∃ i, first_with_url (searched w state) i r)
    ∧ (∀ r, r ∈ searched w state
            ↔ ∃ query results,
                query ∈ search_queries w (as_str q) (get state "messages" (VList []))
                ∧ search_medical_sources w query = Ok results
                ∧ r ∈ results).
Proof.
  intros Hq. unfold research_agent, getitem. rewrite Hq. simpl.
  assert (Hs : searched w state
               = successes (search_medical_sources w <$>
                              search_queries w (as_str q) (get state "messages" (VList [])))).
  { unfold searched, get. by rewrite Hq. }
  eexists. split; [reflexivity|].
  rewrite collect_evidence_spec, <- Hs. split; [|split; [done|split; [|split]]].
  - rewrite <- list_fmap_compose. apply (keep_first_NoDup (searched w state)).
  - apply fmap_sublist, keep_first_sublist.
  - apply keep_first_first_with_url.
  - intros r. rewrite Hs. apply elem_of_successes.
Qed.

Lemma research_evidence_deduplicated_witness :
  ∃ evidence : list Evidence,
    research_agent Sample2.searching_world Sample.drug_query
    = Ok ({[ "evidence" := VList (evidence_value <$> evidence);
             "agents_completed" := VList [VStr "research"] ]} : State)
    ∧ source <$> evidence
      = ["https://pubmed.ncbi.nlm.nih.gov/1"; "https://www.fda.gov/x";
         "https://example.org/y"].
Proof.
  destruct (research_evidence_deduplicated Sample2.searching_world Sample.drug_query
              (VStr "drug X dosing") eq_refl) as (evidence & Hrun & _ & Hev & _).
  exists evidence. split; [exact Hrun|]. rewrite Hev. vm_compute. reflexivity.
Defined.

End Dedup.

(** ** The cross validator and the State it is given *)

Section Snapshot.
Import CrossValidator.

(** A claim that is marked as validated stays so through the loop. *)
Lemma validate_claims_keeps (w : World) (claims validated_claims out : list Value)
    (heap heap' : Heap) (l : nat) (c : Claim) :
  validate_claims w claims validated_claims heap = (Ok out, heap') →
  heap !! l = Some c → cross_validated c = true →
  ∃ c', heap' !! l = Some c' ∧ cross_validated c' = true.
Proof.
  revert validated_claims heap c.
  induction claims as [|v rest IH]; intros acc heap c Hrun Hl Hc; simpl in Hrun.
  { simplify_eq. eauto. }
  destruct v as [| | | | | | |l0]; try discriminate.
  destruct (heap !! l0) as [claim|] eqn:Hl0; [|discriminate].
  destruct (llm_validate w _ _) as [content|e]; [|discriminate].
  destruct (decide (l0 = l)) as [->|Hne].
  - eapply IH; [exact Hrun | apply lookup_insert_eq | done].
  - eapply IH; [exact Hrun | by rewrite lookup_insert_ne | done].
Qed.

(** Every claim the loop handles is left validated in the store. *)
Lemma validate_claims_marks (w : World) (claims validated_claims out : list Value)
    (heap heap' : Heap) (l : nat) :
  validate_claims w claims validated_claims heap = (Ok out, heap') →
  VRef l ∈ claims →
  ∃ c, heap' !! l = Some c ∧ cross_validated c = true.
Proof.
  revert validated_claims heap.
  induction claims as [|v rest IH]; intros acc heap Hrun Hin.
  { by apply elem_of_nil in Hin. }
  simpl in Hrun. destruct v as [| | | | | | |l0];
    try (apply elem_of_cons in Hin as [Heq|Hin]; discriminate).
  destruct (heap !! l0) as [claim|] eqn:Hl0; [|discriminate].
  destruct (llm_validate w _ _) as [content|e]; [|discriminate].
  apply elem_of_cons in Hin as [Heq|Hin]; [|by eapply IH].
  simplify_eq.
  eapply validate_claims_keeps; [exact Hrun | apply lookup_insert_eq | done].
Qed.

(** A validator that runs to its end leaves every claim of the State
    marked as validated: the objects the caller still holds have changed. *)
Lemma cross_validator_marks (w : World) (state update : State) (heap heap' : Heap)
    (l : nat) :
  cross_validator w state heap = (Ok update, heap') →
  VRef l ∈ as_list (get state "claims" (VList [])) →
  ∃ c, heap' !! l = Some c ∧ cross_validated c = true.
Proof.
  unfold cross_validator. destruct (negb _); [discriminate|].
  destruct (validate_claims _ _ _ _) as [[out|e] h] eqn:Hrun; [|discriminate].
  intros [= _ <-] Hin. by eapply validate_claims_marks.
Qed.

(** C3, on the sources.  The cross validator assigns to the [Claim] objects
    of the State it is given: on a State with one claim that is not yet
    validated it returns its partial State, and the claim the snapshot
    refers to is no longer what it was: it is marked validated, carries the
    notes, and its confidence is lowered. *)
Theorem cross_validator_mutates_snapshot :
  ∃ update,
    cross_validator Sample.world Sample.claim_state Sample.claim_heap
    = (Ok update,
       {[ 0%nat := {| statement := statement Sample.claim;
                      citations := [];
                      confidence := "UNCERTAIN";
                      cross_validated := true;
                      validation_notes := Some "Uncertain: the evidence is thin." |} ]})
    ∧ update !! "claims" = Some (VList [VRef 0])
    ∧ Sample.claim_heap !! 0%nat = Some Sample.claim
    ∧ cross_validated Sample.claim = false
    ∧ confidence Sample.claim = "HIGH".
Proof.
  eexists. split; [|split; [|done]].
  - unfold cross_validator, Sample.claim_state, Sample.claim_heap. simpl.
    unfold get. rewrite lookup_singleton_eq. simpl.
    rewrite lookup_singleton_eq. simpl. rewrite insert_singleton_eq. reflexivity.
  - rewrite lookup_insert_eq. reflexivity.
Qed.

End Snapshot.

(** ** The query handler and the thread id *)

Section ThreadId.
Import Routes Server Reference2.

Lemma bind_Ok {A B} (r : Res A) (k : A → Res B) (b : B) :
  bind r k = Ok b → ∃ a, r = Ok a ∧ k a = Ok b.
Proof. destruct r; simpl; [eauto | discriminate]. Qed.

(** What a response of the handler tells of the call. *)
Lemma query_oncoagent_Ok (w : World) (ainvoke : State → string → Res (State * Heap))
    (request : QueryRequest.t) (r : QueryResponse.t) :
  query_oncoagent w ainvoke request = Ok r →
  QueryResponse.thread_id r = str_or (QueryRequest.thread_id request) (uuid4 w)
  ∧ ∃ images result heap,
      request_images w request = Ok images
      ∧ ainvoke (initial_state request images)
          (str_or (QueryRequest.thread_id request) (uuid4 w)) = Ok (result, heap)
      ∧ result !! "response" = Some (VStr (QueryResponse.response r))
      ∧ result !! "confidence_overall" = Some (VStr (QueryResponse.confidence r)).
Proof.
  unfold query_oncoagent. intros H.
  apply bind_Ok in H as (images & Himg & H).
  apply bind_Ok in H as ([result heap] & Hinv & H).
  apply bind_Ok in H as (response & Hresp & H).
  apply bind_Ok in H as (conf & Hconf & H).
  apply bind_Ok in H as (cits & _ & H).
  destruct response; try discriminate. destruct conf; try discriminate.
  destruct (is_list_of_dicts _); try discriminate.
  injection H as <-. simpl. split; [done|].
  exists images, result, heap. split; [done|]. split; [done|].
  unfold getitem in Hresp, Hconf.
  destruct (result !! "response"); [|discriminate].
  destruct (result !! "confidence_overall"); [|discriminate].
  split; congruence.
Qed.

Lemma str_or_usable (t u : string) : t ≠ "" → str_or (Some t) u = t.
Proof. intros Hne. unfold str_or. by destruct (String.eqb_spec t ""). Qed.

Lemma str_or_unusable (x : option string) (u : string) : unusable x → str_or x u = u.
Proof. by intros [-> | ->]. Qed.

Lemma draws_unusable (x : option string) : draws x = true ↔ unusable x.
Proof.
  unfold draws, unusable. destruct x as [s|]; [|naive_solver].
  destruct (String.eqb_spec s ""); naive_solver.
Qed.

(** A request without a usable thread id is handled as the same request
    carrying the generated id. *)
Lemma query_oncoagent_with_thread (w : World)
    (ainvoke : State → string → Res (State * Heap)) (request : QueryRequest.t) :
  unusable (QueryRequest.thread_id request) → uuid4 w ≠ "" →
  query_oncoagent w ainvoke request
  = query_oncoagent w ainvoke (with_thread request (uuid4 w)).
Proof.
  intros Hun Hne. unfold query_oncoagent.
  rewrite (str_or_unusable _ _ Hun).
  change (QueryRequest.thread_id (with_thread request (uuid4 w))) with (Some (uuid4 w)).
  rewrite (str_or_usable _ _ Hne).
  reflexivity.
Qed.


(** Decoding does not depend on the identifier drawn. *)
Lemma decode_images_with_uuid4 (w : World) (u : string) (imgs : list string) :
  ∀ idx, decode_images (with_uuid4 w u) idx imgs = decode_images w idx imgs.
Proof.
  induction imgs as [|img rest IH]; intros idx; [done|].
  cbn [decode_images]. rewrite IH. reflexivity.
Qed.

Lemma request_images_with_uuid4 (w : World) (u : string) (request : QueryRequest.t) :
  request_images (with_uuid4 w u) request = request_images w request.
Proof.
  unfold request_images. destruct (QueryRequest.images request) as [[|img imgs]|]; try done.
  apply decode_images_with_uuid4.
Qed.

(** One request served: what its response tells of the process. *)
Lemma serve_Ok {G : Type} (uuids : nat → string) (w : World) (ainvoke : CompiledGraph G)
    (request : QueryRequest.t) (p p' : Process (list string * G)) (r : QueryResponse.t) :
  serve uuids w (logging ainvoke) request p = (Ok r, p') →
  QueryResponse.thread_id r
  = str_or (QueryRequest.thread_id request) (uuids (drawn p))
  ∧ drawn p' = (if draws (QueryRequest.thread_id request) then S (drawn p) else drawn p)
  ∧ threads p' = (threads p ++ [QueryResponse.thread_id r])%list
  ∧ ∃ images result heap,
      request_images w request = Ok images
      ∧ ainvoke (initial_state request images) (QueryResponse.thread_id r) (compiled p).2
        = (Ok (result, heap), (compiled p').2)
      ∧ result !! "response" = Some (VStr (QueryResponse.response r)).
Proof.
  unfold serve, handle. intros H. injection H as Hr Hp'. subst p'.
  apply query_oncoagent_Ok in Hr
    as (Hthread & images & result & heap & Himg & Hinv & Hresp & _).
  change (uuid4 (with_uuid4 w (uuids (drawn p)))) with (uuids (drawn p)) in *.
  unfold threads. simpl compiled. simpl drawn. rewrite Himg.
  rewrite request_images_with_uuid4 in Himg.
  unfold logging in Hinv |- *. simpl fst in *. simpl snd in *. rewrite <- Hthread in *.
  split; [done|]. split; [done|]. split; [done|].
  exists images, result, heap. split; [done|]. split; [|done].
  destruct (ainvoke _ _ _) as [res g']. simpl in *. congruence.
Qed.





End ThreadId.

(** ** Merging the updates of one superstep *)

Section Merge.

Global Instance by_branch_trans {A} : Transitive (@by_branch A).
Proof. intros x y z. unfold by_branch. lia. Qed.

Global Instance by_branch_total {A} : Total (@by_branch A).
Proof. intros x y. unfold by_branch. lia. Qed.

Lemma imap_from_sorted {A} (n : nat) (l : list A) :
  StronglySorted by_branch (imap (fun i x => ((n + i)%nat, x)) l).
Proof.
  revert n. induction l as [|x l IH]; intros n; [constructor|].
  rewrite imap_cons. constructor.
  - erewrite imap_ext; [apply (IH (S n))|]. intros i y _. simpl. f_equal. lia.
  - apply Forall_forall. intros [j y] (i & z & Heq & _)%elem_of_lookup_imap.
    simpl in Heq. simplify_eq. unfold by_branch. simpl. lia.
Qed.

Lemma imap_pair_sorted {A} (l : list A) : StronglySorted by_branch (imap pair l).
Proof. apply (imap_from_sorted 0 l). Qed.

(** Collected in the order of the branches, any completion order of the
    same outcomes is the list in the order of the branches. *)
Lemma merge_sort_by_branch {A} (arrivals : list (nat * A)) (outputs : list A) :
  arrivals ≡ₚ imap pair outputs →
  merge_sort by_branch arrivals = imap pair outputs.
Proof.
  intros Hperm. apply (StronglySorted_unique_strong by_branch).
  - intros [i x] [j y] Hx Hy Hle Hge.
    rewrite merge_sort_Permutation, Hperm in Hx.
    apply elem_of_lookup_imap in Hx as (i' & x' & ? & Hx).
    apply elem_of_lookup_imap in Hy as (j' & y' & ? & Hy).
    unfold by_branch in *. simpl in *. simplify_eq.
    assert (i' = j') as -> by lia. by simplify_eq.
  - apply StronglySorted_merge_sort; apply _.
  - apply imap_pair_sorted.
  - by rewrite merge_sort_Permutation.
Qed.

Lemma lookup_apply_update (reg : Registry) (base update : State) (f : string) :
  apply_update reg base update !! f
  = field_step (reducer_of reg f) (base !! f) (update !! f).
Proof.
  unfold apply_update, field_step.
  rewrite lookup_union, map_lookup_imap.
  destruct (update !! f) as [v|]; simpl.
  - by destruct (base !! f).
  - by destruct (base !! f).
Qed.

Lemma lookup_foldl_apply_update (reg : Registry) (updates : list State) (base : State)
    (f : string) :
  foldl (apply_update reg) base updates !! f
  = field_merge (reducer_of reg f) (base !! f) ((fun u : State => u !! f) <$> updates).
Proof.
  revert base. induction updates as [|u us IH]; intros base; [done|].
  simpl. rewrite IH, lookup_apply_update. done.
Qed.

Lemma field_step_set (acc v : option Value) :
  set_or_absent acc → set_or_absent v → set_or_absent (field_step Union acc v).
Proof. by destruct acc as [[]|], v as [[]|]. Qed.

Lemma field_step_union_swap (acc x y : option Value) :
  set_or_absent acc → set_or_absent x → set_or_absent y →
  field_step Union (field_step Union acc x) y
  = field_step Union (field_step Union acc y) x.
Proof.
  destruct acc as [[]|], x as [[]|], y as [[]|]; simpl; try done; intros _ _ _;
    do 2 f_equal; set_solver.
Qed.

(** A union field does not depend on the order of the updates at all. *)
Lemma field_merge_union_perm (vs vs' : list (option Value)) (b : option Value) :
  vs ≡ₚ vs' → set_or_absent b → Forall set_or_absent vs →
  field_merge Union b vs = field_merge Union b vs'.
Proof.
  intros Hperm. revert b.
  induction Hperm as [|x l l' _ IH|x y l|l l' l'' H1 IH1 H2 IH2]; intros b Hb Hall.
  - done.
  - apply Forall_cons in Hall as [Hx Hl]. simpl. apply IH; [by apply field_step_set|done].
  - apply Forall_cons in Hall as [Hy [Hx Hl]%Forall_cons]. simpl.
    unfold field_merge. simpl. by rewrite field_step_union_swap.
  - rewrite IH1 by done. apply IH2; [done|]. by rewrite <- H1.
Qed.

(** A concatenated field is the base followed by the updates in the order
    of the list. *)
Lemma field_merge_concatenate (ls : list (list Value)) (b : list Value) :
  field_merge Concatenate (Some (VList b)) ((fun l => Some (VList l)) <$> ls)
  = Some (VList (b ++ concat ls)).
Proof.
  revert b. induction ls as [|l ls IH]; intros b; simpl.
  - by rewrite app_nil_r.
  - unfold field_merge in *. simpl. by rewrite IH, app_assoc.
Qed.

Lemma merge_Merged (reg : Registry) (base st : State) (updates : list State) :
  merge reg base updates = Merged st → st = foldl (apply_update reg) base updates.
Proof. unfold merge. destruct (schema_conflict _ _); congruence. Qed.

(** C6. The merge of one superstep is a function of the base State and of
    what each branch returned: in whatever order the updates arrive, the
    fan-in gives the result of merging them in the order of the router's
    list.  A field with the union reducer does not depend even on that
    order; a field with the append reducer is the base followed by the
    updates in the order of the router's list. *)
Theorem merge_is_order_independent (reg : Registry) (base : State)
    (outputs : list State) (arrivals arrivals' : list (nat * State)) :
  arrivals ≡ₚ imap pair outputs →
  arrivals' ≡ₚ imap pair outputs →
  fan_in reg base arrivals = fan_in reg base arrivals'
  ∧ fan_in reg base arrivals = merge reg base outputs
  ∧ (∀ f permuted st st',
       reducer_of reg f = Union → permuted ≡ₚ outputs →
       set_or_absent (base !! f) →
       Forall (fun u : State => set_or_absent (u !! f)) outputs →
       merge reg base outputs = Merged st → merge reg base permuted = Merged st' →
       st !! f = st' !! f)
  ∧ (∀ f b ls st,
       reducer_of reg f = Concatenate → base !! f = Some (VList b) →
       (fun u : State => u !! f) <$> outputs = (fun l => Some (VList l)) <$> ls →
       merge reg base outputs = Merged st →
       st !! f = Some (VList (b ++ concat ls))).
Proof.
  intros H1 H2.
  assert (Hin : ∀ arr : list (nat * State), arr ≡ₚ imap pair outputs →
                  fan_in reg base arr = merge reg base outputs).
  { intros arr Harr. unfold fan_in. rewrite (merge_sort_by_branch arr outputs Harr).
    f_equal. apply list_eq. intros i.
    rewrite list_lookup_fmap, list_lookup_imap. by destruct (outputs !! i). }
  split; [by rewrite !Hin|]. split; [by apply Hin|]. split.
  - intros f permuted st st' Hr Hperm Hb Hall ->%merge_Merged ->%merge_Merged.
    rewrite !lookup_foldl_apply_update, Hr. symmetry.
    apply field_merge_union_perm; [by rewrite Hperm | done |].
    apply Forall_fmap. rewrite Hperm. done.
  - intros f b ls st Hr Hb Hls ->%merge_Merged.
    rewrite lookup_foldl_apply_update, Hr, Hb, Hls. apply field_merge_concatenate.
Qed.

Lemma merge_is_order_independent_witness :
  fan_in oncoagent_registry ∅ [(1%nat, Sample.trials_update); (0%nat, Sample.research_update)]
  = merge oncoagent_registry ∅ [Sample.research_update; Sample.trials_update].
Proof.
  refine (proj1 (proj2 (merge_is_order_independent oncoagent_registry ∅
            [Sample.research_update; Sample.trials_update]
            [(1%nat, Sample.trials_update); (0%nat, Sample.research_update)]
            [(0%nat, Sample.research_update); (1%nat, Sample.trials_update)] _ _))).
  - apply Permutation_swap.
  - reflexivity.
Defined.

End Merge.

(** ** The executor: supersteps, failures and checkpoints *)

Section Supersteps.

Lemma outcomes_imap_pair (m : Machine) (st : State) (active : list Send) :
  outcomes m st active
  = imap pair ((fun branch : Send => (branch.1, dispatch m st branch)) <$> active).
Proof. unfold outcomes. by rewrite imap_fmap. Qed.

(** At the barrier the outcomes are those of the branches, in their order,
    however the steps completed. *)
Lemma collected_outcomes (m : Machine) (k : nat) (st : State) (active : list Send) :
  completion m k (outcomes m st active) ≡ₚ outcomes m st active →
  merge_sort by_branch (completion m k (outcomes m st active)) = outcomes m st active.
Proof.
  intros Hperm. rewrite outcomes_imap_pair in *. by apply merge_sort_by_branch.
Qed.

Lemma failure_collected (m : Machine) (st : State) (active : list Send)
    (i : nat) (b : Send) (c : string) :
  active !! i = Some b → dispatch m st b = Raise c →
  {| step := b.1; cause := c |} ∈ omap failure_of (outcomes m st active).
Proof.
  intros Hi Hc. apply list_elem_of_omap. exists (i, (b.1, dispatch m st b)). split.
  - unfold outcomes.
    apply (elem_of_lookup_imap_2
             (fun i (branch : Send) => (i, (branch.1, dispatch m st branch))) active b i Hi).
  - unfold failure_of. simpl. by rewrite Hc.
Qed.

(** One superstep of a run that has steps to run and fuel left. *)
Lemma exec_S (m : Machine) (fuel : nat) (sid : string) (k : nat) (st : State)
    (b : Send) (rest : list Send) (store : Store) :
  exec m (S fuel) sid k st (b :: rest) store
  = match superstep m k st (b :: rest) with
    | Aborted failure =>
        {| status := Failed failure; final_store := store;
           trace := [(b :: rest).*1] |}
    | Advanced st' =>
        after [(b :: rest).*1]
          (exec m fuel sid (S k) st' (next_active (graph m) ((b :: rest).*1) st')
             (save sid st' (S k) ((b :: rest).*1) store))
    end.
Proof. reflexivity. Qed.

(** C7. A superstep in which a step fails is dropped as a whole: the run
    is Failed with the failures of all the steps of the superstep that
    failed (the one at hand among them), no update of the superstep, also
    of the steps that succeeded, is merged or checkpointed, and the store
    is the one the earlier supersteps left. *)
Theorem failed_superstep_is_discarded (m : Machine) (fuel : nat) (sid : string)
    (k : nat) (st : State) (active : list Send) (store : Store)
    (i : nat) (b : Send) (c : string) :
  completion m k (outcomes m st active) ≡ₚ outcomes m st active →
  active !! i = Some b →
  dispatch m st b = Raise c →
  exec m (S fuel) sid k st active store
  = {| status := Failed (StepFailures (omap failure_of (outcomes m st active)));
       final_store := store;
       trace := [active.*1] |}
  ∧ {| step := b.1; cause := c |} ∈ omap failure_of (outcomes m st active)
  ∧ load sid (final_store (exec m (S fuel) sid k st active store)) = load sid store.
Proof.
  intros Hperm Hi Hc.
  pose proof (failure_collected m st active i b c Hi Hc) as Hin.
  assert (E : exec m (S fuel) sid k st active store
              = {| status := Failed (StepFailures (omap failure_of (outcomes m st active)));
                   final_store := store; trace := [active.*1] |}).
  { destruct active as [|b0 rest]; [done|].
    rewrite exec_S. unfold superstep. rewrite (collected_outcomes m k st _ Hperm).
    destruct (omap failure_of (outcomes m st (b0 :: rest))) as [|f fs] eqn:Hf; [|done].
    by apply elem_of_nil in Hin. }
  split; [exact E|]. split; [exact Hin|]. by rewrite E.
Qed.

Lemma failed_superstep_is_discarded_witness :
  load "session"
    (final_store (exec Sample.keyless_machine 1 "session" 1 Sample.drug_query
                    Sample.two_branches Sample.one_checkpoint))
  = load "session" Sample.one_checkpoint.
Proof.
  exact (proj2 (proj2 (failed_superstep_is_discarded
           Sample.keyless_machine 0 "session" 1 Sample.drug_query
           Sample.two_branches Sample.one_checkpoint
           1 ("direct_chat", ∅) "ValueError: ANTHROPIC_API_KEY is not configured."
           (reverse_Permutation _) eq_refl eq_refl))).
Defined.

End Supersteps.

(** ** Resuming a run from its checkpoint *)

Section Resume.

Lemma after_nil (r : Run) : after [] r = r.
Proof. by destruct r. Qed.

Lemma after_app (a b : list (list string)) (r : Run) :
  after a (after b r) = after (a ++ b) r.
Proof. unfold after. simpl. by rewrite app_assoc. Qed.

(** Merging the empty update changes nothing. *)
Lemma merge_empty (reg : Registry) (st : State) : merge reg st [∅] = Merged st.
Proof.
  unfold merge. simpl. unfold apply_update.
  by rewrite map_imap_empty, (left_id_L ∅ (∪)).
Qed.

(** A run that is cut after [k] supersteps has executed them all; the
    rest of the run is the run from what it reached, and what it reached
    is what its last checkpoint holds. *)
Lemma exec_interrupted (m : Machine) (sid : string) (k : nat) :
  ∀ (k0 : nat) (st : State) (active : list Send) (store : Store),
    status (exec m k sid k0 st active store) = Interrupted →
    ∃ (st' : State) (active' : list Send),
      active' ≠ []
      ∧ (k = 0%nat → st' = st ∧ active' = active)
      ∧ (∀ n, exec m (k + n) sid k0 st active store
              = after (trace (exec m k sid k0 st active store))
                  (exec m n sid (k0 + k) st' active'
                     (final_store (exec m k sid k0 st active store))))
      ∧ ((0 < k)%nat →
         ∃ names,
           load sid (final_store (exec m k sid k0 st active store))
           = Some {| ck_state := st'; ck_superstep := k0 + k; ck_steps := names |}
           ∧ next_active (graph m) names st' = active').
Proof.
  induction k as [|k IH]; intros k0 st active store Hint.
  - destruct active as [|b rest]; [discriminate|].
    exists st, (b :: rest). split; [done|]. split; [done|]. split; [|lia].
    intros n. simpl. by rewrite Nat.add_0_r, after_nil.
  - destruct active as [|b rest]; [discriminate|].
    rewrite exec_S in Hint |- *.
    destruct (superstep m k0 st (b :: rest)) as [st1|failure] eqn:Hstep; [|discriminate].
    simpl in Hint.
    destruct (IH (S k0) st1 _ _ Hint) as (st' & active' & Hne & Hzero & Hrest & Hck).
    exists st', active'. split; [done|]. split; [lia|]. split.
    + intros n. change (S k + n)%nat with (S (k + n)). rewrite exec_S, Hstep.
      rewrite Hrest, after_app. simpl.
      by replace (k0 + S k)%nat with (S k0 + k)%nat by lia.
    + intros _. simpl. replace (k0 + S k)%nat with (S k0 + k)%nat by lia.
      destruct k as [|k'].
      * destruct (Hzero eq_refl) as [-> ->].
        exists ((b :: rest).*1). split; [|done].
        destruct (next_active _ _ _); simpl; unfold load, save;
          rewrite lookup_insert_eq; do 2 f_equal; lia.
      * apply Hck. lia.
Qed.



End Resume.

(** ** A decision node whose router dispatches nothing *)

Section EmptyFanOut.
Import Supervisor Reference2.

Lemma active_of_empty_as_terminal (router : State → RouteDecision) (st : State) :
  active_of (empty_as_terminal router st) = active_of (router st).
Proof. unfold empty_as_terminal. by destruct (router st) as [| |[|b sends]]. Qed.

Lemma next_active_terminal_edges (g : Graph) (prev : list string) (st : State) :
  next_active (terminal_edges g) prev st = next_active g prev st.
Proof.
  unfold next_active. f_equal.
  - do 3 f_equal. apply list_fmap_ext. intros _ s _. simpl.
    by destruct (edges g s).
  - f_equal. apply list_fmap_ext. intros _ s _. simpl.
    destruct (edges g s); [done|apply active_of_empty_as_terminal].
Qed.

(** Answering Terminal for every empty fan-out changes no run. *)
Lemma exec_terminal_edges (m : Machine) (fuel : nat) (sid : string) :
  ∀ (k : nat) (st : State) (active : list Send) (store : Store),
    exec (with_graph m (terminal_edges (graph m))) fuel sid k st active store
    = exec m fuel sid k st active store.
Proof.
  induction fuel as [|fuel IH]; intros k st [|b rest] store; try reflexivity.
  rewrite !exec_S.
  change (superstep (with_graph m (terminal_edges (graph m))) k st (b :: rest))
    with (superstep m k st (b :: rest)).
  destruct (superstep m k st (b :: rest)) as [st'|failure]; [|done].
  change (graph (with_graph m (terminal_edges (graph m)))) with (terminal_edges (graph m)).
  by rewrite next_active_terminal_edges, IH.
Qed.

Lemma invoke_terminal_edges (m : Machine) (fuel : nat) (init : State) (sid : string)
    (store : Store) :
  invoke (with_graph m (terminal_edges (graph m))) fuel init sid store
  = invoke m fuel init sid store.
Proof.
  unfold invoke.
  change (registry (with_graph m (terminal_edges (graph m)))) with (registry m).
  change (graph (with_graph m (terminal_edges (graph m)))) with (terminal_edges (graph m)).
  change (entry (terminal_edges (graph m))) with (entry (graph m)).
  destruct (load sid store) as [ck|].
  - destruct (merge _ _ _) as [st|field]; [|done].
    rewrite next_active_terminal_edges.
    destruct (next_active _ _ _); apply exec_terminal_edges.
  - destruct (merge _ _ _) as [st|field]; [|done]. apply exec_terminal_edges.
Qed.



End EmptyFanOut.

(** ** The runs of the graph of OncoAgent *)

Section Runs.
Import Supervisor.

Lemma merge_single (reg : Registry) (base u : State) :
  merge reg base [u] = Merged (apply_update reg base u).
Proof. reflexivity. Qed.

(** A superstep of one step that returns is the merge of its update. *)
Lemma superstep_single (m : Machine) (k : nat) (st : State) (b : Send) (u : State) :
  completion m k (outcomes m st [b]) ≡ₚ outcomes m st [b] →
  dispatch m st b = Ok u →
  superstep m k st [b] = Advanced (apply_update (registry m) st u).
Proof.
  intros Hperm Hu. unfold superstep.
  apply Permutation_singleton_r in Hperm. rewrite Hperm.
  unfold outcomes. simpl. rewrite Hu. reflexivity.
Qed.

(** Whatever the world, the supervisor classifies the drug query as
    [research_required]: there is no history, so no model is asked. *)
Lemma supervisor_drug_query (w : World) :
  supervisor w Sample.drug_query = {[ "query_type" := VStr "research_required" ]}.
Proof.
  unfold supervisor.
  change (as_str (get Sample.drug_query "original_query" (VStr ""))) with "drug X dosing".
  change (as_list (get Sample.drug_query "messages" (VList []))) with (@nil Value).
  destruct (key_set _); reflexivity.
Qed.

(** What the router dispatches for a query that needs research. *)
Lemma research_required_route (state : State) :
  state !! "query_type" = Some (VStr "research_required") →
  route_after_supervisor state
  = FanOut (("research", state)
            :: if truthy (get state "images" VNone) then [("vision", state)] else []).
Proof.
  intros Hq.
  assert (Hg : get state "query_type" (VStr "research_required")
               = VStr "research_required") by (unfold get; by rewrite Hq).
  unfold route_after_supervisor. rewrite Hg. simpl.
  by destruct (truthy _).
Qed.

Lemma superstep_single_raises (m : Machine) (k : nat) (st : State) (b : Send)
    (e : string) :
  completion m k (outcomes m st [b]) ≡ₚ outcomes m st [b] →
  dispatch m st b = Raise e →
  superstep m k st [b] = Aborted (StepFailures [{| step := b.1; cause := e |}]).
Proof.
  intros Hperm Hu. unfold superstep.
  apply Permutation_singleton_r in Hperm. rewrite Hperm.
  unfold outcomes. simpl. rewrite Hu. reflexivity.
Qed.

(** The router dispatches [clinical_trials] for two intents only. *)
Lemma clinical_trials_dispatched (state : State) :
  "clinical_trials" ∈ dispatched (route_after_supervisor state)
  ↔ state !! "query_type" = Some (VStr "treatment")
    ∨ state !! "query_type" = Some (VStr "trial").
Proof.
  assert (Hno : ∀ P : Prop,
            "clinical_trials" ∈ ["direct_chat"] ∨ "clinical_trials" ∈ ["context_responder"]
            ∨ "clinical_trials" ∈ ["research"] ∨ "clinical_trials" ∈ ["research"; "vision"]
            → P).
  { intros P H. exfalso. destruct H as [H | [H | [H | H]]];
      repeat (apply elem_of_cons in H as [H|H]; [discriminate H|]);
      by apply elem_of_nil in H. }
  unfold route_after_supervisor, get, dispatched.
  destruct (state !! "query_type") as [v|]; simpl.
  - destruct v as [| |s| | | | |]; simpl;
      try (destruct (truthy _); simpl;
           (split; [intros H; apply Hno; tauto | intros [H|H]; discriminate H])).
    destruct (String.eqb_spec s "greeting") as [->|Hg]; simpl.
    { split; [intros H; apply Hno; tauto | intros [H|H]; discriminate H]. }
    destruct (String.eqb_spec s "followup_with_context") as [->|Hf]; simpl.
    { split; [intros H; apply Hno; tauto | intros [H|H]; discriminate H]. }
    destruct (String.eqb_spec s "repeated_question") as [->|Hr]; simpl.
    { split; [intros H; apply Hno; tauto | intros [H|H]; discriminate H]. }
    destruct (String.eqb_spec s "treatment") as [->|Ht]; simpl.
    { split; [by left|]. intros _. destruct (truthy _); simpl; set_solver. }
    destruct (String.eqb_spec s "trial") as [->|Hl]; simpl.
    { split; [by right|]. intros _. destruct (truthy _); simpl; set_solver. }
    destruct (truthy _); simpl;
      (split; [intros H; apply Hno; tauto | intros [H|H]; congruence]).
  - destruct (truthy _); simpl;
      (split; [intros H; apply Hno; tauto | intros [H|H]; discriminate H]).
Qed.

(** The run of the drug query, superstep by superstep, in any world. *)
Section DrugRun.
Import Sample2.
Context (w : World) (heap : Heap) (completion : nat → list Outcome → list Outcome).
Hypothesis Hperm : ∀ k l, completion k l ≡ₚ l.

Lemma run_supervisor (f : nat) (store : Store) :
  exec (oncoagent w heap completion) (S f) "session" 0 Sample.drug_query
    [("supervisor", ∅)] store
  = after [["supervisor"]]
      (exec (oncoagent w heap completion) f "session" 1 Sample.drug_classified
         [("research", Sample.drug_classified)]
         (save "session" Sample.drug_classified 1 ["supervisor"] store)).
Proof.
  set (m := oncoagent w heap completion).
  rewrite exec_S.
  rewrite (superstep_single m 0 Sample.drug_query ("supervisor", ∅)
             {[ "query_type" := VStr "research_required" ]});
    [|apply Hperm | unfold dispatch; cbn [fst snd];
      change (∅ ∪ Sample.drug_query) with Sample.drug_query;
      change (steps m "supervisor" Sample.drug_query)
        with (Ok (supervisor w Sample.drug_query) : Res State);
      by rewrite supervisor_drug_query].
  reflexivity.
Qed.

Lemma run_research (f : nat) (store : Store) :
  ∃ evidence,
    exec (oncoagent w heap completion) (S f) "session" 1 Sample.drug_classified
      [("research", Sample.drug_classified)] store
    = after [["research"]]
        (exec (oncoagent w heap completion) f "session" 2 (drug_researched evidence)
           [("aggregator", ∅)]
           (save "session" (drug_researched evidence) 2 ["research"] store)).
Proof.
  set (m := oncoagent w heap completion).
  assert (Hres : ∃ evidence,
            Research.research_agent w Sample.drug_classified
            = Ok ({[ "evidence" := VList evidence;
                     "agents_completed" := VList [VStr "research"] ]} : State))
    by (eexists; reflexivity).
  destruct Hres as [evidence Hres]. exists evidence.
  rewrite exec_S.
  erewrite (superstep_single m 1 Sample.drug_classified
              ("research", Sample.drug_classified));
    [|apply Hperm | unfold dispatch; cbn [fst snd];
      change (Sample.drug_classified ∪ Sample.drug_classified) with Sample.drug_classified;
      exact Hres].
  reflexivity.
Qed.

Lemma run_aggregator (f : nat) (store : Store) (evidence : list Value) :
  exec (oncoagent w heap completion) (S f) "session" 2 (drug_researched evidence)
    [("aggregator", ∅)] store
  = after [["aggregator"]]
      (exec (oncoagent w heap completion) f "session" 3 (drug_aggregated evidence)
         [("response_builder", ∅)]
         (save "session" (drug_aggregated evidence) 3 ["aggregator"] store)).
Proof.
  set (m := oncoagent w heap completion).
  rewrite exec_S.
  rewrite (superstep_single m 2 (drug_researched evidence) ("aggregator", ∅)
             {[ "agents_completed" := VList [VStr "aggregator"] ]});
    [|apply Hperm | reflexivity].
  reflexivity.
Qed.

(** What the response builder answers on the gathered State: it raises
    without a key or when the model raises, and else returns the answer. *)
Lemma response_builder_drug_query (evidence : list Value) :
  (∃ e, (key_set (anthropic_api_key w) = false
         ∨ llm_respond w (VStr "drug X dosing") (VList evidence) (VList []) [] = Raise e)
        ∧ Agents.response_builder w heap (drug_aggregated evidence) = Raise e)
  ∨ (∃ content confidence,
       llm_respond w (VStr "drug X dosing") (VList evidence) (VList []) [] = Ok content
       ∧ Agents.response_builder w heap (drug_aggregated evidence)
         = Ok ({[ "response" := VStr content;
                  "confidence_overall" := VStr confidence;
                  "agents_completed" := VList [VStr "response_builder"] ]} : State)).
Proof.
  unfold Agents.response_builder.
  destruct (key_set (anthropic_api_key w)); [|left; eexists; split; [by left|done]].
  cbn [negb].
  change (getitem (drug_aggregated evidence) "original_query")
    with (Ok (VStr "drug X dosing") : Res Value).
  change (get (drug_aggregated evidence) "evidence" (VList [])) with (VList evidence).
  change (get (drug_aggregated evidence) "clinical_trials" (VList [])) with (VList []).
  change (get (drug_aggregated evidence) "images" (VList [])) with (VList []).
  change (get (drug_aggregated evidence) "claims" (VList [])) with (VList []).
  cbn [bind as_list Agents.image_analyses omap].
  destruct (llm_respond w _ _ _ _) as [content|e]; [|left; exists e; split; [by right|done]].
  right. exists content. cbn [bind].
  destruct (truthy (VList evidence)); cbn [bind]; eexists; (split; [reflexivity|]); reflexivity.
Qed.

Lemma run_response_builder (f : nat) (store : Store) (evidence : list Value) :
  (∃ e,
     (key_set (anthropic_api_key w) = false
      ∨ llm_respond w (VStr "drug X dosing") (VList evidence) (VList []) [] = Raise e)
     ∧ exec (oncoagent w heap completion) (S f) "session" 3 (drug_aggregated evidence)
         [("response_builder", ∅)] store
       = {| status := Failed (StepFailures [{| step := "response_builder"; cause := e |}]);
            final_store := store;
            trace := [["response_builder"]] |})
  ∨ (∃ content confidence,
       llm_respond w (VStr "drug X dosing") (VList evidence) (VList []) [] = Ok content
       ∧ exec (oncoagent w heap completion) (S f) "session" 3 (drug_aggregated evidence)
           [("response_builder", ∅)] store
         = {| status := ReachedTerminal (drug_answered evidence content confidence);
              final_store :=
                save "session" (drug_answered evidence content confidence) 4
                  ["response_builder"] store;
              trace := [["response_builder"]] |}).
Proof.
  set (m := oncoagent w heap completion).
  rewrite exec_S.
  destruct (response_builder_drug_query evidence)
    as [(e & Hwhy & He) | (content & conf & Hmodel & Hrun)].
  - left. exists e. split; [done|].
    by erewrite (superstep_single_raises m 3 _ ("response_builder", ∅));
      [| apply Hperm | exact He].
  - right. exists content, conf. split; [done|].
    erewrite (superstep_single m 3 _ ("response_builder", ∅));
      [|apply Hperm | exact Hrun].
    change (next_active _ _ _) with (@nil Send).
    rewrite exec_no_active. reflexivity.
Qed.

End DrugRun.

(** C2, as the sources have it.  For the initial State with the query
    [drug X dosing] the supervisor classifies the query as
    [research_required] in every world, and the router then fans out to
    the research step alone (and to [vision] when the State has images).
    For every State, [clinical_trials] is dispatched exactly when
    [query_type] is [treatment] or [trial].  The run of the drug query
    never dispatches [clinical_trials]: its supersteps are the supervisor,
    research alone, the aggregator and the response builder, as far as it
    gets; when it reaches Terminal the steps recorded as completed are
    research, aggregator and response builder; and it reaches Terminal
    within four supersteps when the key is configured and the response
    model answers. *)
Theorem research_required_runs_research_only (w : World) (heap : Heap)
    (completion : nat → list Outcome → list Outcome) (fuel : nat) :
  (∀ k l, completion k l ≡ₚ l) →
  supervisor w Sample.drug_query = {[ "query_type" := VStr "research_required" ]}
  ∧ route_after_supervisor Sample.drug_classified
    = FanOut [("research", Sample.drug_classified)]
  ∧ (∀ state,
       "clinical_trials" ∈ dispatched (route_after_supervisor state)
       ↔ state !! "query_type" = Some (VStr "treatment")
         ∨ state !! "query_type" = Some (VStr "trial"))
  ∧ (∀ state,
       state !! "query_type" = Some (VStr "research_required") →
       dispatched (route_after_supervisor state)
       = "research" :: (if truthy (get state "images" VNone) then ["vision"] else []))
  ∧ trace (invoke (oncoagent w heap completion) fuel Sample.drug_query "session" ∅)
    `prefix_of` [["supervisor"]; ["research"]; ["aggregator"]; ["response_builder"]]
  ∧ ((2 ≤ fuel)%nat →
     trace (invoke (oncoagent w heap completion) fuel Sample.drug_query "session" ∅)
       !! 1%nat = Some ["research"])
  ∧ (∀ result,
       status (invoke (oncoagent w heap completion) fuel Sample.drug_query "session" ∅)
       = ReachedTerminal result →
       result !! "agents_completed"
       = Some (VList [VStr "research"; VStr "aggregator"; VStr "response_builder"]))
  ∧ ((4 ≤ fuel)%nat →
     key_set (anthropic_api_key w) = true →
     (∀ query evidence trials analyses,
        ∃ content, llm_respond w query evidence trials analyses = Ok content) →
     ∃ result,
       status (invoke (oncoagent w heap completion) fuel Sample.drug_query "session" ∅)
       = ReachedTerminal result).
Proof.
  intros Hperm.
  split; [apply supervisor_drug_query|]. split; [reflexivity|].
  split; [apply clinical_trials_dispatched|]. split.
  { intros state Hq. rewrite (research_required_route state Hq). unfold dispatched. simpl.
    by destruct (truthy _). }
  set (m := oncoagent w heap completion).
  assert (Hinv : invoke m fuel Sample.drug_query "session" ∅
                 = exec m fuel "session" 0 Sample.drug_query [("supervisor", ∅)] ∅)
    by reflexivity.
  rewrite Hinv. clear Hinv. subst m.
  destruct fuel as [|[|[|[|f]]]].
  - repeat split; [by eexists | intros; lia | intros result H; discriminate H | intros; lia].
  - rewrite (run_supervisor w heap completion Hperm). repeat split.
    + simpl. by eexists.
    + intros; lia.
    + intros result H; discriminate H.
    + intros; lia.
  - rewrite (run_supervisor w heap completion Hperm).
    destruct (run_research w heap completion Hperm 0
                (save "session" Sample.drug_classified 1 ["supervisor"] ∅)) as [ev ->].
    repeat split.
    + simpl. by eexists.
    + intros result H; discriminate H.
    + intros; lia.
  - rewrite (run_supervisor w heap completion Hperm).
    destruct (run_research w heap completion Hperm 1
                (save "session" Sample.drug_classified 1 ["supervisor"] ∅)) as [ev ->].
    rewrite (run_aggregator w heap completion Hperm).
    repeat split.
    + simpl. by eexists.
    + intros result H; discriminate H.
    + intros; lia.
  - rewrite (run_supervisor w heap completion Hperm).
    destruct (run_research w heap completion Hperm (S (S f))
                (save "session" Sample.drug_classified 1 ["supervisor"] ∅)) as [ev ->].
    rewrite (run_aggregator w heap completion Hperm).
    destruct (run_response_builder w heap completion Hperm f
                (save "session" (Sample2.drug_aggregated ev) 3 ["aggregator"]
                   (save "session" (Sample2.drug_researched ev) 2 ["research"]
                      (save "session" Sample.drug_classified 1 ["supervisor"] ∅))) ev)
      as [(e & Hwhy & ->) | (content & conf & Hmodel & ->)].
    + repeat split.
      * simpl. by eexists [].
      * intros result H; discriminate H.
      * intros _ Hkey Hanswers. exfalso.
        destruct Hwhy as [Hno | Hraise]; [congruence|].
        destruct (Hanswers (VStr "drug X dosing") (VList ev) (VList []) []) as [content Hc].
        congruence.
    + repeat split.
      * simpl. by eexists [].
      * intros result [= <-]. reflexivity.
      * intros _ _ _. by eexists.
Qed.

Lemma research_required_runs_research_only_witness :
  ∃ result,
    status (invoke (oncoagent Sample.world ∅ Sample.last_first) 4
              Sample.drug_query "session" ∅) = ReachedTerminal result
    ∧ result !! "agents_completed"
      = Some (VList [VStr "research"; VStr "aggregator"; VStr "response_builder"]).
Proof.
  destruct (research_required_runs_research_only Sample.world ∅ Sample.last_first 4
              (fun k l => reverse_Permutation l))
    as (_ & _ & _ & _ & _ & _ & Hdone & Hrun).
  destruct (Hrun (le_n 4) eq_refl (fun _ _ _ _ => ex_intro _ "Answer" eq_refl))
    as [result Hres].
  exists result. split; [exact Hres | exact (Hdone result Hres)].
Defined.

(** C2, as stated, fails: the query [drug X dosing] is classified as
    [research_required], and the router then dispatches [research] alone;
    the run ends without [clinical_trials] ever being dispatched, and the
    steps recorded as completed are those of the research path. *)
Lemma research_required_omits_clinical_trials :
  supervisor Sample.world Sample.drug_query
  = {[ "query_type" := VStr "research_required" ]}
  ∧ route_after_supervisor Sample.drug_classified
    = FanOut [("research", Sample.drug_classified)]
  ∧ trace (invoke Sample.machine 4 Sample.drug_query "session" ∅)
    = [["supervisor"]; ["research"]; ["aggregator"]; ["response_builder"]]
  ∧ status (invoke Sample.machine 4 Sample.drug_query "session" ∅)
    = ReachedTerminal Sample.drug_result
  ∧ Sample.drug_result !! "agents_completed"
    = Some (VList [VStr "research"; VStr "aggregator"; VStr "response_builder"]).
Proof. repeat split; vm_compute; reflexivity. Qed.

(** C5, as the sources have it.  [route_after_supervisor] never answers
    Terminal, nor an empty fan-out: on every State, the final State of a
    finished run included, it names [direct_chat], [context_responder], or
    a fan-out that starts with [research]. *)
Theorem route_after_supervisor_never_terminal (state : State) :
  route_after_supervisor state ≠ Terminal
  ∧ active_of (route_after_supervisor state) ≠ []
  ∧ (dispatched (route_after_supervisor state) = ["direct_chat"]
     ∨ dispatched (route_after_supervisor state) = ["context_responder"]
     ∨ ∃ rest, dispatched (route_after_supervisor state) = "research" :: rest).
Proof.
  destruct (route_after_supervisor_active state) as [H1 H2].
  split; [done|]. split; [done|].
  destruct (route_after_supervisor_cases state) as [-> | [-> | (rest & -> & _)]];
    [by left | by right; left | right; right]. by eexists.
Qed.

(** C5, as stated, fails: the run of a greeting reaches Terminal, and the
    router applied to its final State answers [direct_chat] again. *)
Lemma terminal_state_routes_again :
  status (invoke Sample.machine 2 Sample.greeting_query "session" ∅)
  = ReachedTerminal Sample.greeting_result
  ∧ route_after_supervisor Sample.greeting_result = Single "direct_chat".
Proof. split; vm_compute; reflexivity. Qed.

End Runs.

(** * Further properties of the sources *)

Import Reference2.

(** ** The supervisor and its router together *)

Section Intents.
Import Supervisor.

Lemma greeting_or_research_range (greetings : list string) (query : string) :
  greeting_or_research greetings query ∈ valid_intents.
Proof.
  unfold greeting_or_research, valid_intents.
  destruct (_ && _); set_solver.
Qed.

Lemma _classify_intent_with_llm_range (w : World) (query : string) (messages : list Value) :
  _classify_intent_with_llm w query messages ∈ valid_intents.
Proof.
  unfold _classify_intent_with_llm.
  destruct (_ <=? _)%nat; [apply greeting_or_research_range|].
  destruct (llm_classify w query _) as [content|]; [|unfold valid_intents; set_solver].
  destruct (existsb _ valid_intents) eqn:E; [|unfold valid_intents; set_solver].
  apply existsb_exists in E as (x & Hx & ->%String.eqb_eq).
  by apply list_elem_of_In.
Qed.

Lemma supervisor_valid (w : World) (state : State) :
  ∃ intent, supervisor w state = {[ "query_type" := VStr intent ]}
            ∧ intent ∈ valid_intents.
Proof.
  unfold supervisor. eexists. split; [reflexivity|].
  destruct (key_set _);
    [apply _classify_intent_with_llm_range | apply greeting_or_research_range].
Qed.

(** X1. Whatever the model answers, and with or without a key, the supervisor
    writes one field, [query_type], and its value is one of the five
    intents; without a key, or without history, it is [greeting] or
    [research_required]. *)
Theorem supervisor_writes_valid_intent (w : World) (state : State) :
  (∃ intent, supervisor w state = {[ "query_type" := VStr intent ]}
             ∧ intent ∈ valid_intents)
  ∧ (key_set (anthropic_api_key w) = false
     ∨ (length (as_list (get state "messages" (VList []))) ≤ 1)%nat →
     supervisor w state = {[ "query_type" := VStr "greeting" ]}
     ∨ supervisor w state = {[ "query_type" := VStr "research_required" ]}).
Proof.
  split; [apply supervisor_valid|].
  unfold supervisor, _classify_intent_with_llm, _classify_intent_simple,
    greeting_or_research.
  intros [Hk | Hlen].
  - rewrite Hk. destruct (_ && _); [by left | by right].
  - apply Nat.leb_le in Hlen. rewrite Hlen.
    destruct (key_set _); destruct (_ && _); (by left) || (by right).
Qed.

Lemma valid_intent_route (state : State) (intent : string) :
  intent ∈ valid_intents →
  state !! "query_type" = Some (VStr intent) →
  dispatched (route_after_supervisor state) = ["direct_chat"]
  ∨ dispatched (route_after_supervisor state) = ["context_responder"]
  ∨ dispatched (route_after_supervisor state) = ["research"]
  ∨ dispatched (route_after_supervisor state) = ["research"; "vision"].
Proof.
  intros Hin Hq.
  assert (Hg : get state "query_type" (VStr "research_required") = VStr intent)
    by (unfold get; by rewrite Hq).
  unfold route_after_supervisor. rewrite Hg.
  unfold valid_intents in Hin.
  repeat (apply elem_of_cons in Hin as [->|Hin]);
    try (by apply elem_of_nil in Hin);
    simpl; try (by left); try (by right; left);
    destruct (truthy _); right; right; ((by left) || (by right)).
Qed.

(** X2. After the supervisor has classified, the router never dispatches the
    clinical trials step: the State with the field the supervisor wrote is
    routed to the direct chat, to the context responder, or to research
    (with vision when there are images). *)
Theorem clinical_trials_never_follows_supervisor (w : World) (state : State) :
  ("clinical_trials"
   ∉ dispatched (route_after_supervisor (overwritten (supervisor w state) state)))
  ∧ (dispatched (route_after_supervisor (overwritten (supervisor w state) state))
     = ["direct_chat"]
     ∨ dispatched (route_after_supervisor (overwritten (supervisor w state) state))
       = ["context_responder"]
     ∨ dispatched (route_after_supervisor (overwritten (supervisor w state) state))
       = ["research"]
     ∨ dispatched (route_after_supervisor (overwritten (supervisor w state) state))
       = ["research"; "vision"]).
Proof.
  destruct (supervisor_valid w state) as (intent & E & Hin).
  assert (Hq : overwritten (supervisor w state) state !! "query_type" = Some (VStr intent)).
  { unfold overwritten. rewrite E. apply lookup_union_Some_l, lookup_singleton_eq. }
  pose proof (valid_intent_route _ intent Hin Hq) as Hcases.
  split; [|exact Hcases].
  destruct Hcases as [-> | [-> | [-> | ->]]]; set_solver.
Qed.

(** X3. The router answers with a single step exactly for the direct intents,
    whatever the images; otherwise it fans out, and [vision] is among the
    steps exactly when [images] is true. *)
Theorem direct_intents_are_the_single_routes (state : State) :
  ((∃ step, route_after_supervisor state = Single step)
   ↔ in_strs (get state "query_type" (VStr "research_required")) DIRECT_INTENTS = true)
  ∧ ("vision" ∈ dispatched (route_after_supervisor state)
     ↔ in_strs (get state "query_type" (VStr "research_required")) DIRECT_INTENTS = false
       ∧ truthy (get state "images" VNone) = true).
Proof.
  unfold route_after_supervisor, DIRECT_INTENTS, in_strs. simpl.
  destruct (eq_str _ "greeting"); simpl.
  { split; [split; eauto|]. split; [set_solver|]. by intros [? _]. }
  destruct (eq_str _ "followup_with_context"); simpl.
  { split; [split; eauto|]. split; [set_solver|]. by intros [? _]. }
  destruct (eq_str _ "repeated_question"); simpl.
  { split; [split; eauto|]. split; [set_solver|]. by intros [? _]. }
  split; [split; [by intros [? ?] | done]|].
  destruct (eq_str _ "treatment" || _), (truthy _); unfold dispatched; simpl;
    split; try done; try set_solver; by intros [_ ?].
Qed.

End Intents.

(** ** The query handler: query type, images and the thread of a session *)

Section Handler.
Import Routes.

Lemma lower_char_upper_char (c : ascii) : lower_char (upper_char c) = lower_char c.
Proof. destruct c as [[] [] [] [] [] [] [] []]; reflexivity. Qed.

Lemma lower_char_idem (c : ascii) : lower_char (lower_char c) = lower_char c.
Proof. destruct c as [[] [] [] [] [] [] [] []]; reflexivity. Qed.

Lemma lower_upper (s : string) : lower (upper s) = lower s.
Proof.
  induction s as [|c s IH]; [done|].
  unfold lower, upper in *. simpl. by rewrite lower_char_upper_char, IH.
Qed.

Lemma lower_idem (s : string) : lower (lower s) = lower s.
Proof.
  induction s as [|c s IH]; [done|].
  unfold lower in *. simpl. by rewrite lower_char_idem, IH.
Qed.

(** X4. The query type inferred from a query does not depend on the case of
    its letters; a query that mentions a trial is of type [trial] whatever
    else it mentions; and the type is one of five. *)
Theorem infer_query_type_ignores_case (query : string) :
  _infer_query_type (upper query) = _infer_query_type query
  ∧ _infer_query_type (lower query) = _infer_query_type query
  ∧ (contains "trial" (lower query) = true → _infer_query_type query = "trial")
  ∧ _infer_query_type query ∈ ["trial"; "guideline"; "drug"; "treatment"; "general"].
Proof.
  unfold _infer_query_type. rewrite lower_upper, lower_idem.
  split; [done|]. split; [done|]. split.
  - by intros ->.
  - repeat (destruct (_ || _) || destruct (contains _ _)); set_solver.
Qed.

Lemma append_nil (b : string) : EmptyString +:+ b = b.
Proof. reflexivity. Qed.

Lemma append_cons (x : ascii) (a b : string) :
  String x a +:+ b = String x (a +:+ b).
Proof. reflexivity. Qed.

Lemma append_assoc (a b c : string) : (a +:+ b) +:+ c = a +:+ (b +:+ c).
Proof.
  induction a as [|x a IH]; [done|]. by rewrite !append_cons, IH.
Qed.

Lemma lacks_app (c : ascii) (a b : string) :
  lacks c (a +:+ b) ↔ lacks c a ∧ lacks c b.
Proof.
  induction a as [|x a IH]; [rewrite append_nil; simpl; naive_solver|].
  rewrite append_cons. simpl. rewrite IH. naive_solver.
Qed.

Lemma split_once_go_lacks (sep : ascii) (a b cur : string) :
  lacks sep a →
  split_once_go sep cur (a +:+ String sep b) = Some (String.rev_app cur a, b).
Proof.
  revert cur. induction a as [|x a IH]; intros cur Ha.
  - rewrite append_nil. simpl. by rewrite Ascii.eqb_refl.
  - rewrite append_cons. simpl.
    destruct Ha as [Hx Ha]. apply Ascii.eqb_neq in Hx. rewrite Hx. by apply IH.
Qed.

Lemma split_on_go_lacks (sep : ascii) (a cur : string) :
  lacks sep a → split_on_go sep cur a = [String.rev_app cur a].
Proof.
  revert cur. induction a as [|x a IH]; intros cur Ha; simpl; [done|].
  destruct Ha as [Hx Ha]. apply Ascii.eqb_neq in Hx. rewrite Hx. by apply IH.
Qed.

Lemma split_on_go_app (sep : ascii) (a b cur : string) :
  lacks sep a →
  split_on_go sep cur (a +:+ String sep b)
  = String.rev_app cur a :: split_on_go sep EmptyString b.
Proof.
  revert cur. induction a as [|x a IH]; intros cur Ha.
  - rewrite append_nil. simpl. by rewrite Ascii.eqb_refl.
  - rewrite append_cons. simpl.
    destruct Ha as [Hx Ha]. apply Ascii.eqb_neq in Hx. rewrite Hx. by apply IH.
Qed.

Lemma contains_char_app (c : ascii) (a b : string) :
  contains (String c EmptyString) (a +:+ String c b) = true.
Proof.
  induction a as [|x a IH].
  - rewrite append_nil. simpl. destruct (ascii_dec c c); [|done]. by destruct b.
  - rewrite append_cons. simpl. rewrite IH. apply orb_true_r.
Qed.

Lemma startswith_data (rest : string) : startswith ("data:" +:+ rest) "data:" = true.
Proof.
  unfold startswith.
  change ("data:" +:+ rest)
    with (String "d" (String "a" (String "t" (String "a" (String ":" rest))))).
  simpl. by destruct rest.
Qed.

(** X5. The data URI the user interface builds for an uploaded file is read
    back by the handler: the image it decodes has the MIME type of the
    file and the bytes of its base64 content, provided the MIME type has no
    comma, semicolon or colon. *)
Theorem decode_image_reads_client_payload (w : World) (file_type data : string)
    (index : nat) :
  lacks "," file_type → lacks ";" file_type → lacks ":" file_type →
  _decode_image w (Streamlit.image_payload file_type data) index
  = bind (b64decode w data) (fun image_bytes =>
      Ok (VDict [("path", VStr ("uploaded-" +:+ pretty index));
                 ("type", VStr "uploaded");
                 ("data", VStr image_bytes);
                 ("mime_type", VStr file_type)])).
Proof.
  intros Hcomma Hsemi Hcolon.
  unfold _decode_image, Streamlit.image_payload.
  rewrite startswith_data.
  assert (E : "data:" +:+ file_type +:+ ";base64," +:+ data
              = ("data:" +:+ file_type +:+ ";base64") +:+ String "," data).
  { rewrite !append_assoc. reflexivity. }
  rewrite E. unfold split_once.
  rewrite split_once_go_lacks
    by (rewrite !lacks_app; repeat split; simpl; try done; by repeat split).
  cbn [String.rev_app].
  assert (E2 : "data:" +:+ file_type +:+ ";base64"
               = ("data:" +:+ file_type) +:+ String ";" "base64").
  { rewrite !append_assoc. reflexivity. }
  rewrite E2, contains_char_app. unfold split_on at 2.
  rewrite split_on_go_app
    by (rewrite lacks_app; split; simpl; [by repeat split | done]).
  cbn [String.rev_app List.hd].
  change ("data:" +:+ file_type) with ("data" +:+ String ":" file_type).
  unfold split_on. rewrite split_on_go_app by (simpl; by repeat split).
  rewrite split_on_go_lacks by done.
  reflexivity.
Qed.

Lemma decode_image_reads_client_payload_witness :
  _decode_image Sample.world (Streamlit.image_payload "image/png" "QUJD") 0
  = Ok (VDict [("path", VStr "uploaded-0"); ("type", VStr "uploaded");
               ("data", VStr "QUJD"); ("mime_type", VStr "image/png")]).
Proof.
  exact (decode_image_reads_client_payload Sample.world "image/png" "QUJD" 0
           ltac:(simpl; repeat split; discriminate)
           ltac:(simpl; repeat split; discriminate)
           ltac:(simpl; repeat split; discriminate)).
Defined.

End Handler.

Section Uploads.
Import Routes.

Lemma _decode_image_Ok (w : World) (image_str : string) (index : nat) (d : Value) :
  _decode_image w image_str index = Ok d →
  ∃ image_bytes mime_type,
    d = VDict [("path", VStr ("uploaded-" +:+ pretty index));
               ("type", VStr "uploaded");
               ("data", VStr image_bytes);
               ("mime_type", VStr mime_type)].
Proof.
  unfold _decode_image. intros H.
  apply bind_Ok in H as ([payload mime] & _ & H).
  apply bind_Ok in H as (image_bytes & _ & H).
  injection H as <-. eauto.
Qed.

Lemma decode_images_raises (w : World) (imgs : list string) (idx i : nat)
    (img e : string) :
  imgs !! i = Some img → _decode_image w img (idx + i)%nat = Raise e →
  ∃ e', decode_images w idx imgs = Raise e'.
Proof.
  revert idx i. induction imgs as [|img0 rest IH]; intros idx i Hi Hraise; [done|].
  destruct i as [|i]; simpl in Hi |- *.
  - injection Hi as <-. rewrite Nat.add_0_r in Hraise. rewrite Hraise. simpl. eauto.
  - replace (idx + S i)%nat with (S idx + i)%nat in Hraise by lia.
    destruct (IH (S idx) i Hi Hraise) as [e' He'].
    destruct (_decode_image w img0 idx); simpl; [rewrite He'; simpl|]; eauto.
Qed.

(** X6. The images of a request are decoded all or none: when the list is
    decoded there is one image per upload, in order, the one at position
    [i] with the path [uploaded-i]; when one upload cannot be decoded the
    whole list raises. *)
Theorem decode_images_all_or_none (w : World) (imgs : list string) (idx : nat) :
  (∀ ds, decode_images w idx imgs = Ok ds →
         length ds = length imgs
         ∧ ∀ i d, ds !! i = Some d →
                  ∃ image_bytes mime_type,
                    d = VDict [("path", VStr ("uploaded-" +:+ pretty (idx + i)%nat));
                               ("type", VStr "uploaded");
                               ("data", VStr image_bytes);
                               ("mime_type", VStr mime_type)])
  ∧ (∀ i img e, imgs !! i = Some img → _decode_image w img (idx + i)%nat = Raise e →
                ∃ e', decode_images w idx imgs = Raise e').
Proof.
  split; [|intros i img e; apply decode_images_raises].
  revert idx. induction imgs as [|img rest IH]; intros idx ds H.
  { injection H as <-. split; [done|]. by intros i d Hi. }
  simpl in H.
  apply bind_Ok in H as (d0 & Hd0 & H).
  apply bind_Ok in H as (ds' & Hds' & H). injection H as <-.
  destruct (IH (S idx) ds' Hds') as [Hlen Hpaths]. split; [simpl; by rewrite Hlen|].
  intros [|i] d Hi; simpl in Hi.
  - injection Hi as <-. rewrite Nat.add_0_r. by eapply _decode_image_Ok.
  - replace (idx + S i)%nat with (S idx + i)%nat by lia. by apply Hpaths.
Qed.

(** X7. A request with an upload that cannot be decoded is refused before the
    graph is reached: the handler raises, and raises the same whatever the
    graph would have done. *)
Theorem undecodable_upload_stops_request (w : World) (request : QueryRequest.t)
    (imgs : list string) (i : nat) (img : string) (e : string) :
  QueryRequest.images request = Some imgs →
  imgs !! i = Some img →
  _decode_image w img i = Raise e →
  ∃ e', ∀ ainvoke, query_oncoagent w ainvoke request = Raise e'.
Proof.
  intros Himgs Hi Hraise.
  destruct (decode_images_raises w imgs 0 i img e Hi Hraise) as [e' He'].
  exists e'. intros ainvoke. unfold query_oncoagent. rewrite Himgs.
  destruct imgs as [|img0 rest]; [done|]. by rewrite He'.
Qed.

Lemma undecodable_upload_stops_request_witness :
  ∃ e', ∀ ainvoke,
    query_oncoagent Sample.world ainvoke Sample2.broken_upload_request = Raise e'.
Proof.
  exact (undecodable_upload_stops_request Sample.world Sample2.broken_upload_request
           ["data:image/png;base64"] 0 "data:image/png;base64" "ValueError"
           eq_refl eq_refl eq_refl).
Defined.

Lemma query_oncoagent_thread (w : World)
    (ainvoke : State → string → Res (State * Heap))
    (request : QueryRequest.t) (r : QueryResponse.t) :
  query_oncoagent w ainvoke request = Ok r →
  QueryResponse.thread_id r = str_or (QueryRequest.thread_id request) (uuid4 w).
Proof.
  unfold query_oncoagent. intros H.
  apply bind_Ok in H as (images & _ & H).
  apply bind_Ok in H as ([result heap] & _ & H).
  apply bind_Ok in H as (response & _ & H).
  apply bind_Ok in H as (conf & _ & H).
  apply bind_Ok in H as (cits & _ & H).
  destruct response; try discriminate. destruct conf; try discriminate.
  destruct (is_list_of_dicts _); try discriminate.
  by injection H as <-.
Qed.

(** X8. A session keeps its thread: the user interface sends no thread id on
    the first turn and stores the one of the response; sent back on the
    next turn, possibly to another process, it is the thread id of that
    response too, so the session thread never changes after the first
    turn.  (The generated UUID is not the empty string.) *)
Theorem session_thread_is_stable (w1 w2 : World)
    (graph1 graph2 : State → string → Res (State * Heap))
    (query1 cancer1 query2 cancer2 : string) (images1 images2 : list string)
    (r1 r2 : QueryResponse.t) :
  uuid4 w1 ≠ "" →
  query_oncoagent w1 graph1 (Streamlit.payload None query1 cancer1 images1) = Ok r1 →
  query_oncoagent w2 graph2
    (Streamlit.payload (Streamlit.next_thread None r1) query2 cancer2 images2) = Ok r2 →
  QueryResponse.thread_id r1 = uuid4 w1
  ∧ QueryResponse.thread_id r2 = QueryResponse.thread_id r1
  ∧ Streamlit.next_thread (Streamlit.next_thread None r1) r2 = Streamlit.next_thread None r1.
Proof.
  intros Hne H1 H2.
  apply query_oncoagent_thread in H1. apply query_oncoagent_thread in H2.
  simpl in H1, H2. rewrite H1 in H2 |- *.
  apply String.eqb_neq in Hne. rewrite Hne in H2.
  split; [done|]. split; [done|]. unfold Streamlit.next_thread. by rewrite H2, H1.
Qed.

Lemma session_thread_is_stable_witness :
  ∃ r1 r2,
    query_oncoagent Sample.world Sample.answering Sample2.first_request = Ok r1
    ∧ query_oncoagent Sample.world Sample.answering
        (Streamlit.payload (Streamlit.next_thread None r1) "and the dose?" "" []) = Ok r2
    ∧ QueryResponse.thread_id r2 = QueryResponse.thread_id r1.
Proof.
  eexists _, _. split; [reflexivity|]. split; [reflexivity|].
  exact (proj1 (proj2 (session_thread_is_stable Sample.world Sample.world
           Sample.answering Sample.answering "drug X dosing" "" "and the dose?" ""
           [] [] _ _ ltac:(discriminate) eq_refl eq_refl))).
Defined.

End Uploads.

(** ** The research agent: what it keeps and what can make it fail *)

Section ResearchMore.
Import Research.

Lemma keep_first_urls (l : list SearchResult) (u : string) :
  u ∈ url <$> keep_first l ↔ u ∈ url <$> l.
Proof.
  induction l as [|r rest IH]; [done|].
  simpl. rewrite !elem_of_cons, <- IH, !list_elem_of_fmap.
  split.
  - intros [->|(x & -> & [_ Hx]%list_elem_of_filter)]; [by left | right; eauto].
  - intros [->|(x & -> & Hx)]; [by left|].
    destruct (decide (url x = url r)) as [E|E]; [by left|].
    right. exists x. split; [done|]. by apply list_elem_of_filter.
Qed.

Lemma keep_first_length (l : list SearchResult) : (length (keep_first l) ≤ length l)%nat.
Proof.
  induction l as [|r rest IH]; simpl; [done|].
  pose proof (length_filter (fun r' => url r' ≠ url r) (keep_first rest)). lia.
Qed.

(** X9. Deduplication loses no source: a URL is among the evidence exactly
    when a search that did not raise returned it; the evidence is never
    longer than the results; and every entry is stamped with the one
    retrieval date and classified by its own URL. *)
Theorem evidence_covers_every_url (now : string)
    (all_results : list (Res (list SearchResult))) :
  (∀ u, u ∈ source <$> collect_evidence now all_results
        ↔ u ∈ url <$> successes all_results)
  ∧ (length (collect_evidence now all_results) ≤ length (successes all_results))%nat
  ∧ Forall (fun e => retrieved_date e = now
                     ∧ ev_source_type e = _classify_source (source e))
      (collect_evidence now all_results).
Proof.
  rewrite collect_evidence_spec. split; [|split].
  - intros u. rewrite <- list_fmap_compose. apply (keep_first_urls (successes all_results) u).
  - rewrite length_fmap. apply keep_first_length.
  - apply Forall_fmap, Forall_forall. by intros r _.
Qed.

Lemma successes_all_raise (results : list (Res (list SearchResult))) :
  Forall (fun r => ∃ e, r = Raise e) results → successes results = [].
Proof.
  induction 1 as [|r rest [e ->] _ IH]; [done|]. exact IH.
Qed.

(** X10. The research agent fails for one reason only, a State without
    [original_query]; failing services do not fail it: the query model
    raising makes it search for the query itself, a search raising is
    skipped, and when every search raises it returns no evidence. *)
Theorem research_agent_absorbs_failures (w : World) (state : State) :
  (state !! "original_query" = None → research_agent w state = Raise "KeyError")
  ∧ (∀ q, state !! "original_query" = Some q →
       ∃ evidence : list Evidence,
         research_agent w state =
           Ok ({[ "evidence" := VList (evidence_value <$> evidence);
                  "agents_completed" := VList [VStr "research"] ]} : State)
         ∧ ((∀ query, ∃ e, exa_search w query = Raise e) → evidence = [])).
Proof.
  unfold research_agent, getitem. split.
  - by intros ->.
  - intros q ->. simpl. eexists. split; [reflexivity|].
    intros Hdown. rewrite collect_evidence_spec.
    rewrite successes_all_raise; [done|].
    apply Forall_fmap, Forall_forall. intros query _.
    destruct (Hdown query) as [e He]. exists e.
    unfold search_medical_sources. by rewrite He.
Qed.


End ResearchMore.

(** ** Confidence scoring *)

Section Confidence.
Import Safety.

Lemma count_if_le {A} (p : A → bool) (l : list A) : (count_if p l ≤ length l)%nat.
Proof. unfold count_if. induction l as [|x l IH]; simpl; [done|]. destruct (p x); simpl; lia. Qed.

Lemma count_if_cons {A} (p : A → bool) (x : A) (l : list A) :
  count_if p (x :: l) = ((if p x then 1 else 0) + count_if p l)%nat.
Proof. unfold count_if. simpl. by destruct (p x). Qed.

Lemma count_if_Permutation {A} (p : A → bool) (l l' : list A) :
  l ≡ₚ l' → count_if p l = count_if p l'.
Proof.
  induction 1 as [|x l l' _ IH|x y l|l l' l'' _ IH1 _ IH2]; [done| | |congruence].
  - by rewrite !count_if_cons, IH.
  - rewrite !count_if_cons. lia.
Qed.

Lemma grade_monotone (n h h' : nat) :
  (h ≤ h')%nat → (rank (grade n h) ≤ rank (grade (S n) h'))%nat.
Proof.
  intros Hh. unfold grade.
  repeat match goal with
         | |- context [(?a <=? ?b)%nat] => destruct (Nat.leb_spec a b)
         end; simpl; try lia; unfold rank; simpl; lia.
Qed.

Lemma calculate_confidence_from_evidence_grade (evidence : list Value) :
  calculate_confidence_from_evidence evidence
  = grade (length evidence) (count_if high_quality_evidence evidence).
Proof.
  destruct evidence as [|e rest]; [reflexivity|].
  unfold calculate_confidence_from_evidence, grade.
  change (fun e0 : Value => in_strs (evidence_source_type e0)
            ["fda"; "nccn"; "asco"; "esmo"; "nejm"; "lancet"; "pubmed"; "cochrane"])
    with high_quality_evidence.
  set (n := length (e :: rest)). set (h := count_if high_quality_evidence (e :: rest)).
  assert (Hh : (h ≤ n)%nat) by apply count_if_le.
  repeat match goal with
         | |- context [(?a <=? ?b)%nat] => destruct (Nat.leb_spec a b)
         end; simpl; try reflexivity; lia.
Qed.

(** X12. One more piece of evidence never lowers the confidence computed from
    the evidence, and the order of the evidence does not matter; the
    confidence is HIGH exactly from three sources on of which two are of
    high quality, and UNCERTAIN exactly without evidence. *)
Theorem evidence_confidence_is_monotone (evidence : list Value) (e : Value) :
  (rank (calculate_confidence_from_evidence evidence)
   ≤ rank (calculate_confidence_from_evidence (e :: evidence)))%nat
  ∧ (∀ evidence', evidence ≡ₚ evidence' →
       calculate_confidence_from_evidence evidence
       = calculate_confidence_from_evidence evidence')
  ∧ (calculate_confidence_from_evidence evidence = "HIGH"
     ↔ (3 ≤ length evidence)%nat ∧ (2 ≤ count_if high_quality_evidence evidence)%nat)
  ∧ (calculate_confidence_from_evidence evidence = "UNCERTAIN" ↔ evidence = []).
Proof.
  rewrite !calculate_confidence_from_evidence_grade. split; [|split; [|split]].
  - rewrite count_if_cons. apply grade_monotone. lia.
  - intros evidence' Hperm. rewrite !calculate_confidence_from_evidence_grade.
    by rewrite (count_if_Permutation _ _ _ Hperm), (Permutation_length Hperm).
  - unfold grade.
    repeat match goal with
           | |- context [(?a <=? ?b)%nat] => destruct (Nat.leb_spec a b)
           end; simpl; split; try done; try lia; by intros [? ?]; lia.
  - pose proof (count_if_le high_quality_evidence evidence).
    destruct evidence as [|x rest]; [done|]. unfold grade. simpl length in *.
    repeat match goal with
           | |- context [(?a <=? ?b)%nat] => destruct (Nat.leb_spec a b)
           end; simpl; split; try done; lia.
Qed.

Lemma calculate_confidence_grade (claim : Claim) :
  calculate_confidence claim
  = grade (length (citations claim)) (count_if high_quality_citation (citations claim)).
Proof.
  unfold calculate_confidence.
  change (fun c : Citation => mem (source_type c) ["pubmed"; "fda"; "nccn"])
    with high_quality_citation.
  pose proof (count_if_le high_quality_citation (citations claim)) as Hle.
  destruct (citations claim) as [|c rest]; [reflexivity|].
  unfold grade.
  repeat match goal with
         | |- context [(?a <=? ?b)%nat] => destruct (Nat.leb_spec a b)
         end; simpl; try reflexivity; simpl in *; lia.
Qed.

(** X13. The confidence of a claim is UNCERTAIN exactly when it has no
    citation, is HIGH only from three citations on, and is never lowered by
    one more citation. *)
Theorem claim_confidence_is_monotone (claim : Claim) (c : Citation) :
  (calculate_confidence claim = "UNCERTAIN" ↔ citations claim = [])
  ∧ (calculate_confidence claim = "HIGH" → (3 ≤ length (citations claim))%nat)
  ∧ (rank (calculate_confidence claim)
     ≤ rank (calculate_confidence
               {| statement := statement claim;
                  citations := c :: citations claim;
                  confidence := confidence claim;
                  cross_validated := cross_validated claim;
                  validation_notes := validation_notes claim |}))%nat.
Proof.
  rewrite !calculate_confidence_grade. simpl citations.
  pose proof (count_if_le high_quality_citation (citations claim)) as Hle.
  split; [|split].
  - destruct (citations claim) as [|x rest]; [done|]. unfold grade. simpl length in *.
    repeat match goal with
           | |- context [(?a <=? ?b)%nat] => destruct (Nat.leb_spec a b)
           end; simpl; split; try done; lia.
  - unfold grade.
    repeat match goal with
           | |- context [(?a <=? ?b)%nat] => destruct (Nat.leb_spec a b)
           end; simpl; try done; lia.
  - rewrite count_if_cons. simpl length. apply grade_monotone. lia.
Qed.

Lemma forallb_Permutation {A} (p : A → bool) (l l' : list A) :
  l ≡ₚ l' → forallb p l = forallb p l'.
Proof.
  induction 1 as [|x l l' _ IH|x y l|l l' l'' _ IH1 _ IH2]; simpl; [done| | |congruence].
  - by rewrite IH.
  - by destruct (p x), (p y).
Qed.

Lemma existsb_Permutation {A} (p : A → bool) (l l' : list A) :
  l ≡ₚ l' → existsb p l = existsb p l'.
Proof.
  induction 1 as [|x l l' _ IH|x y l|l l' l'' _ IH1 _ IH2]; simpl; [done| | |congruence].
  - by rewrite IH.
  - by destruct (p x), (p y).
Qed.

(** X14. The overall confidence does not depend on the order of the claims; it
    is UNCERTAIN exactly for no claims and HIGH exactly when there are
    claims and all are HIGH; one claim that is LOW or UNCERTAIN makes the
    whole LOW. *)
Theorem overall_confidence_is_the_weakest (claims : list Claim) :
  (∀ claims', claims ≡ₚ claims' →
     calculate_overall_confidence claims = calculate_overall_confidence claims')
  ∧ (calculate_overall_confidence claims = "UNCERTAIN" ↔ claims = [])
  ∧ (calculate_overall_confidence claims = "HIGH"
     ↔ claims ≠ [] ∧ Forall (fun c => confidence c = "HIGH") claims)
  ∧ (∀ c, c ∈ claims → confidence c = "LOW" ∨ confidence c = "UNCERTAIN" →
          calculate_overall_confidence claims = "LOW").
Proof.
  split; [|split; [|split]].
  - intros claims' Hperm. unfold calculate_overall_confidence.
    rewrite (forallb_Permutation _ _ _ (fmap_Permutation confidence _ _ Hperm)).
    rewrite !(existsb_Permutation _ _ _ (fmap_Permutation confidence _ _ Hperm)).
    destruct claims as [|c rest].
    + by apply Permutation_nil_l in Hperm as <-.
    + destruct claims' as [|c' rest']; [|done].
      by apply Permutation_nil_r in Hperm.
  - destruct claims as [|c rest]; [done|]. unfold calculate_overall_confidence.
    destruct (forallb _ _); [done|]. destruct (existsb _ _); [done|].
    by destruct (existsb _ _).
  - destruct claims as [|c rest]; [by split; [|intros [? _]]|].
    unfold calculate_overall_confidence.
    destruct (forallb (fun level => String.eqb level "HIGH") (confidence <$> c :: rest))
      eqn:Hall.
    + split; [|done]. intros _. split; [done|].
      rewrite forallb_forall in Hall. apply Forall_forall. intros x Hx.
      apply String.eqb_eq, Hall, list_elem_of_In, list_elem_of_fmap. eauto.
    + split.
      * destruct (existsb _ _); [done|]. by destruct (existsb _ _).
      * intros [_ HF]. exfalso.
        assert (forallb (fun level => String.eqb level "HIGH")
                  (confidence <$> c :: rest) = true); [|congruence].
        apply forallb_forall. intros level Hl%list_elem_of_In.
        apply list_elem_of_fmap in Hl as (x & -> & Hx).
        rewrite Forall_forall in HF. apply String.eqb_eq. by apply HF.
  - intros c Hc Hlow. destruct claims as [|c0 rest]; [by apply elem_of_nil in Hc|].
    unfold calculate_overall_confidence.
    assert (Hin : In (confidence c) (confidence <$> c0 :: rest)).
    { apply list_elem_of_In, list_elem_of_fmap. eauto. }
    destruct (forallb (fun level => String.eqb level "HIGH") (confidence <$> c0 :: rest))
      eqn:Hall.
    { rewrite forallb_forall in Hall. apply Hall, String.eqb_eq in Hin.
      destruct Hlow as [E|E]; rewrite E in Hin; discriminate. }
    destruct (existsb (fun level => String.eqb level "UNCERTAIN") _) eqn:Hu; [done|].
    destruct (existsb (fun level => String.eqb level "LOW") _) eqn:Hl; [done|].
    exfalso. destruct Hlow as [E|E].
    + assert (existsb (fun level => String.eqb level "LOW")
                (confidence <$> c0 :: rest) = true); [|congruence].
      apply existsb_exists. exists (confidence c). split; [done|]. by rewrite E.
    + assert (existsb (fun level => String.eqb level "UNCERTAIN")
                (confidence <$> c0 :: rest) = true); [|congruence].
      apply existsb_exists. exists (confidence c). split; [done|]. by rewrite E.
Qed.

End Confidence.

(** ** From the evidence of the research agent to the confidence of the response *)

Section ResponseConfidence.
Import Research Safety Agents.

Lemma _classify_source_range (u : string) :
  _classify_source u ∈
    ["pubmed"; "asco"; "fda"; "esmo"; "nccn"; "nejm"; "lancet"; "cochrane"; "other"].
Proof.
  unfold _classify_source.
  repeat (destruct (_ || _) || destruct (contains _ u)); set_solver.
Qed.

(** Every source the research agent recognises counts as of high quality:
    an evidence entry is of high quality exactly when its source is not
    classified as [other]. *)
Lemma classified_is_high_quality (now : string) (r : SearchResult) :
  high_quality_evidence (evidence_value (make_evidence now r))
  = bool_decide (ev_source_type (make_evidence now r) ≠ "other").
Proof.
  unfold high_quality_evidence, evidence_source_type, evidence_value. simpl.
  pose proof (_classify_source_range (url r)) as Hr.
  repeat (apply elem_of_cons in Hr as [->|Hr]); try (by apply elem_of_nil in Hr);
    reflexivity.
Qed.

Lemma count_recognised (now : string) (rs : list SearchResult) :
  count_if high_quality_evidence (evidence_value <$> (make_evidence now <$> rs))
  = length (recognised (make_evidence now <$> rs)).
Proof.
  unfold recognised. induction rs as [|r rs IH]; [done|].
  rewrite !fmap_cons, count_if_cons, IH, classified_is_high_quality, filter_cons.
  case_bool_decide; by case_decide.
Qed.

(** X15. The confidence of a response built on the evidence of the research
    agent is the grade of the number of distinct URLs and of the number of
    them from a recognised source: HIGH exactly from three URLs on of which
    two are recognised.  The claims of the State play no part then. *)
Theorem response_confidence_from_research (w : World) (heap : Heap) (state : State)
    (now : string) (all_results : list (Res (list SearchResult)))
    (query : Value) (content : string) :
  key_set (anthropic_api_key w) = true →
  state !! "original_query" = Some query →
  state !! "evidence"
  = Some (VList (evidence_value <$> collect_evidence now all_results)) →
  collect_evidence now all_results ≠ [] →
  llm_respond w query
    (VList (evidence_value <$> collect_evidence now all_results))
    (get state "clinical_trials" (VList []))
    (image_analyses (as_list (get state "images" (VList [])))) = Ok content →
  response_builder w heap state
  = Ok ({[ "response" := VStr content;
           "confidence_overall" :=
             VStr (grade (length (collect_evidence now all_results))
                         (length (recognised (collect_evidence now all_results))));
           "agents_completed" := VList [VStr "response_builder"] ]} : State)
  ∧ (grade (length (collect_evidence now all_results))
           (length (recognised (collect_evidence now all_results))) = "HIGH"
     ↔ (3 ≤ length (collect_evidence now all_results))%nat
       ∧ (2 ≤ length (recognised (collect_evidence now all_results)))%nat).
Proof.
  intros Hkey Hq Hev Hne Hllm. split.
  - unfold response_builder, getitem. rewrite Hkey, Hq. cbn [negb bind].
    assert (Hg : get state "evidence" (VList [])
                 = VList (evidence_value <$> collect_evidence now all_results))
      by (unfold get; by rewrite Hev).
    rewrite !Hg, Hllm. cbn [bind].
    assert (Htruthy : truthy (VList (evidence_value <$> collect_evidence now all_results))
                      = true).
    { simpl. destruct (collect_evidence now all_results); done. }
    rewrite Htruthy. cbn [bind as_list].
    rewrite calculate_confidence_from_evidence_grade, length_fmap.
    rewrite collect_evidence_spec, count_recognised. reflexivity.
  - unfold grade.
    repeat match goal with
           | |- context [(?a <=? ?b)%nat] => destruct (Nat.leb_spec a b)
           end; simpl; split; try done; try lia; by intros [? ?]; lia.
Qed.

Lemma response_confidence_from_research_witness :
  response_builder Sample.world ∅ Sample2.researched_state
  = Ok ({[ "response" := VStr "Answer";
           "confidence_overall" := VStr "HIGH";
           "agents_completed" := VList [VStr "response_builder"] ]} : State).
Proof.
  exact (proj1 (response_confidence_from_research Sample.world ∅ Sample2.researched_state
           "2026-01-01" Sample2.gathered (VStr "drug X dosing") "Answer"
           eq_refl eq_refl eq_refl ltac:(discriminate) eq_refl)).
Defined.

End ResponseConfidence.

(** ** The cross validator: what it changes and what it leaves *)

Section Validator.
Import CrossValidator.

Lemma handled_refl (c : Claim) : handled c c.
Proof. unfold handled. auto. Qed.

Lemma handled_trans (a b c : Claim) : handled a b → handled b c → handled a c.
Proof.
  unfold handled. intros [H1 [H2 H3]] [H4 [H5 H6]].
  rewrite H4, H5, H1, H2. split; [done|]. split; [done|].
  destruct H6 as [H6|H6]; rewrite H6; [done | by right].
Qed.

Lemma handled_validated (c : Claim) (content : string) : handled c (validated c content).
Proof.
  unfold handled, validated. simpl. split; [done|]. split; [done|].
  destruct (contains _ _); [by right | by left].
Qed.

(** Whatever the loop returns, it only rewrites claims the list refers to,
    and of a claim it rewrites neither the statement nor the citations. *)
Lemma validate_claims_frame (w : World) (claims : list Value) :
  ∀ (acc : list Value) (heap heap' : Heap) (r : Res (list Value)),
    validate_claims w claims acc heap = (r, heap') →
    (∀ l, heap' !! l = None ↔ heap !! l = None)
    ∧ (∀ l c c', heap !! l = Some c → heap' !! l = Some c' → handled c c')
    ∧ (∀ l, VRef l ∉ claims → heap' !! l = heap !! l).
Proof.
  induction claims as [|v rest IH]; intros acc heap heap' r Hrun; simpl in Hrun.
  { injection Hrun as <- <-. split; [done|]. split; [|done].
    intros l c c' H1 H2. rewrite H1 in H2. injection H2 as <-. apply handled_refl. }
  assert (Hsame : (r, heap') = (Raise "AttributeError" : Res (list Value), heap) ∨
                  (∃ e, (r, heap') = (Raise e : Res (list Value), heap)) →
                  (∀ l, heap' !! l = None ↔ heap !! l = None)
                  ∧ (∀ l c c', heap !! l = Some c → heap' !! l = Some c' → handled c c')
                  ∧ (∀ l, VRef l ∉ v :: rest → heap' !! l = heap !! l)).
  { intros [E | [e E]]; injection E as -> ->; (split; [done|]); (split; [|done]);
      intros l c c' H1 H2; rewrite H1 in H2; injection H2 as <-; apply handled_refl. }
  destruct v as [| | | | | | |l0]; try (apply Hsame; left; by rewrite Hrun).
  destruct (heap !! l0) as [claim|] eqn:Hl0; [|apply Hsame; left; by rewrite Hrun].
  destruct (llm_validate w _ _) as [content|e]; [|apply Hsame; right; exists e; by rewrite Hrun].
  destruct (IH _ _ _ _ Hrun) as (Hdom & Hhandled & Hframe). split; [|split].
  - intros l. rewrite Hdom. destruct (decide (l0 = l)) as [->|Hne].
    + rewrite lookup_insert_eq, Hl0. done.
    + by rewrite lookup_insert_ne.
  - intros l c c' Hc Hc'. destruct (decide (l0 = l)) as [->|Hne].
    + rewrite Hl0 in Hc. injection Hc as <-.
      eapply handled_trans; [apply (handled_validated claim content)|].
      eapply Hhandled; [apply lookup_insert_eq | exact Hc'].
    + eapply Hhandled; [by rewrite lookup_insert_ne | exact Hc'].
  - intros l Hnot. rewrite Hframe by set_solver.
    apply lookup_insert_ne. intros ->. set_solver.
Qed.

Lemma validate_claims_out (w : World) (claims : list Value) :
  ∀ (acc out : list Value) (heap heap' : Heap),
    validate_claims w claims acc heap = (Ok out, heap') → out = (acc ++ claims)%list.
Proof.
  induction claims as [|v rest IH]; intros acc out heap heap' Hrun; simpl in Hrun.
  { injection Hrun as <- <-. by rewrite app_nil_r. }
  destruct v as [| | | | | | |l0]; try discriminate.
  destruct (heap !! l0) as [claim|]; [|discriminate].
  destruct (llm_validate w _ _) as [content|e]; [|discriminate].
  rewrite (IH _ _ _ _ Hrun), <- app_assoc. done.
Qed.

(** X16. When the cross validator returns, it returns the claims of the State,
    the same references in the same order, and the flag cleared; in the
    store every claim of the State is marked as validated, no claim has
    appeared or gone, every claim has its statement and citations, its
    confidence is what it was or UNCERTAIN, and a claim the State does not
    refer to is untouched. *)
Theorem cross_validator_effect (w : World) (state update : State) (heap heap' : Heap) :
  cross_validator w state heap = (Ok update, heap') →
  update = {[ "claims" := VList (as_list (get state "claims" (VList [])));
              "needs_cross_validation" := VBool false ]}
  ∧ (∀ l, VRef l ∈ as_list (get state "claims" (VList [])) →
          ∃ c', heap' !! l = Some c' ∧ cross_validated c' = true)
  ∧ (∀ l, heap' !! l = None ↔ heap !! l = None)
  ∧ (∀ l c c', heap !! l = Some c → heap' !! l = Some c' → handled c c')
  ∧ (∀ l, VRef l ∉ as_list (get state "claims" (VList [])) → heap' !! l = heap !! l).
Proof.
  intros Hrun. pose proof Hrun as Hrun0.
  unfold cross_validator in Hrun. destruct (negb _); [discriminate|].
  destruct (validate_claims _ _ _ _) as [[out|e] h] eqn:Hloop; [|discriminate].
  injection Hrun as <- <-.
  split; [by rewrite (validate_claims_out _ _ _ _ _ _ Hloop)|].
  split; [intros l; by apply (cross_validator_marks w state _ heap h l Hrun0)|].
  apply (validate_claims_frame _ _ _ _ _ _ Hloop).
Qed.

Lemma cross_validator_effect_witness :
  ∃ update heap',
    cross_validator Sample.world Sample.claim_state Sample.claim_heap = (Ok update, heap')
    ∧ update = {[ "claims" := VList [VRef 0]; "needs_cross_validation" := VBool false ]}.
Proof.
  eexists _, _. split; [reflexivity|].
  exact (proj1 (cross_validator_effect Sample.world Sample.claim_state _
                  Sample.claim_heap _ eq_refl)).
Defined.

(** Whatever the loop returns, a claim that is marked stays marked. *)
Lemma validate_claims_keeps_any (w : World) (claims : list Value) :
  ∀ (acc : list Value) (heap heap' : Heap) (r : Res (list Value)) (l : nat) (c : Claim),
    validate_claims w claims acc heap = (r, heap') →
    heap !! l = Some c → cross_validated c = true →
    ∃ c', heap' !! l = Some c' ∧ cross_validated c' = true.
Proof.
  induction claims as [|v rest IH]; intros acc heap heap' r l c Hrun Hl Hc;
    simpl in Hrun.
  { injection Hrun as <- <-. eauto. }
  destruct v as [| | | | | | |l0]; try (injection Hrun as <- <-; eauto).
  destruct (heap !! l0) as [claim|] eqn:Hl0; [|injection Hrun as <- <-; eauto].
  destruct (llm_validate w _ _) as [content|e]; [|injection Hrun as <- <-; eauto].
  destruct (decide (l0 = l)) as [->|Hne].
  - eapply IH; [exact Hrun | apply lookup_insert_eq | done].
  - eapply IH; [exact Hrun | by rewrite lookup_insert_ne | done].
Qed.

(** X17. A failure does not undo what the cross validator did before it: when
    the first claim is validated and the step then raises, on a later claim
    or on a later call of the model, the step has failed and the first
    claim is modified all the same. *)
Theorem cross_validator_fails_half_done (w : World) (state : State) (heap heap' : Heap)
    (l : nat) (rest : list Value) (c : Claim) (content e : string) :
  key_set (openai_api_key w) = true →
  as_list (get state "claims" (VList [])) = VRef l :: rest →
  heap !! l = Some c →
  llm_validate w (statement c) (citations c) = Ok content →
  cross_validator w state heap = (Raise e, heap') →
  ∃ c', heap' !! l = Some c' ∧ cross_validated c' = true
        ∧ statement c' = statement c.
Proof.
  intros Hkey Hclaims Hl Hllm Hrun.
  unfold cross_validator in Hrun. rewrite Hkey, Hclaims in Hrun. simpl in Hrun.
  rewrite Hl, Hllm in Hrun.
  destruct (validate_claims w rest _ _) as [[out|e'] h] eqn:Hloop; [discriminate|].
  injection Hrun as <- <-.
  destruct (validate_claims_keeps_any w rest _ _ _ _ l (validated c content) Hloop)
    as (c' & Hc' & Hmarked); [apply lookup_insert_eq | done |].
  exists c'. split; [done|]. split; [done|].
  destruct (validate_claims_frame w rest _ _ _ _ Hloop) as (_ & Hhandled & _).
  by destruct (Hhandled l (validated c content) c' (lookup_insert_eq _ _ _) Hc') as [-> _].
Qed.

Lemma cross_validator_fails_half_done_witness :
  ∃ c', (cross_validator Sample2.flaky_world Sample2.two_claims_state
           Sample2.two_claims_heap).2 !! 0%nat = Some c'
        ∧ cross_validated c' = true
        ∧ statement c' = statement Sample2.first_claim.
Proof.
  exact (cross_validator_fails_half_done Sample2.flaky_world Sample2.two_claims_state
           Sample2.two_claims_heap _ 0 [VRef 1] Sample2.first_claim "SUPPORTED" "APIError"
           eq_refl eq_refl eq_refl eq_refl eq_refl).
Defined.

End Validator.

(** ** The vision agent and the context responder *)

Section OtherAgents.
Import Agents Supervisor.

Lemma analyse_images_spec (w : World) (images : list Value) :
  ∀ (acc out : list Value),
    analyse_images w images acc = Ok out →
    ∃ fresh, out = (acc ++ fresh)%list
             ∧ Forall2 (analysed w) (with_data images) fresh
             ∧ Forall is_dict images.
Proof.
  induction images as [|img rest IH]; intros acc out H; simpl in H.
  { injection H as <-. exists []. rewrite app_nil_r. by repeat split. }
  destruct img as [| | | |image| | |]; try discriminate.
  unfold with_data. simpl.
  destruct (truthy (default VNone (dict_get image "data"))) eqn:Hdata; simpl in H.
  - apply bind_Ok in H as (analysis & Hmodel & H).
    destruct (IH _ _ H) as (fresh & -> & Hall & Hdicts).
    eexists (_ :: fresh). rewrite <- app_assoc. split; [reflexivity|].
    split.
    + constructor; [|done]. unfold analysed. eauto.
    + constructor; [|done]. unfold is_dict. eauto.
  - destruct (IH _ _ H) as (fresh & -> & Hall & Hdicts).
    exists fresh. repeat split; try done. constructor; [|done]. unfold is_dict. eauto.
Qed.

Lemma analyse_images_no_data (w : World) (images : list Value) (acc : list Value) :
  Forall is_dict images → with_data images = [] → analyse_images w images acc = Ok acc.
Proof.
  induction 1 as [|img rest [d ->] _ IH]; [done|].
  unfold with_data. simpl.
  destruct (truthy (default VNone (dict_get d "data"))); [discriminate|].
  intros Hrest. simpl. by apply IH.
Qed.

(** The loop runs to its end when every image is a dict and the model
    answers on each image that carries data. *)
Lemma analyse_images_returns (w : World) (images : list Value) (acc : list Value) :
  Forall is_dict images →
  Forall (fun img => ∃ entry, analysed w img entry) (with_data images) →
  ∃ out, analyse_images w images acc = Ok out.
Proof.
  intros Hdicts. revert acc.
  induction Hdicts as [|img rest [d ->] _ IH]; intros acc Hall; [by eexists|].
  unfold with_data in Hall. simpl in Hall. simpl.
  destruct (truthy (default VNone (dict_get d "data"))); simpl.
  - apply Forall_cons in Hall as [(entry & d' & analysis & [= <-] & -> & _) Hall].
    simpl. by apply IH.
  - by apply IH.
Qed.

(** X18. The vision agent returns one entry per image that carries data, in
    the order of the images: the path and the type of that image with what
    the model said of its data and MIME type; the entries replace the
    [images] field.  Images without data are skipped.  The agent returns
    whenever the images are dicts and the model answers on each image with
    data; when no image carries data the model is not called and the agent
    returns the empty list. *)
Theorem vision_agent_analyses (w : World) (state : State) :
  (∀ update, vision_agent w state = Ok update →
     ∃ analyses,
       update = {[ "images" := VList analyses;
                   "agents_completed" := VList [VStr "vision"] ]}
       ∧ Forall2 (analysed w)
           (with_data (as_list (get state "images" (VList [])))) analyses)
  ∧ (Forall is_dict (as_list (get state "images" (VList []))) →
     Forall (fun img => ∃ entry, analysed w img entry)
       (with_data (as_list (get state "images" (VList [])))) →
     ∃ update, vision_agent w state = Ok update)
  ∧ (Forall is_dict (as_list (get state "images" (VList []))) →
     with_data (as_list (get state "images" (VList []))) = [] →
     vision_agent w state
     = Ok ({[ "images" := VList [];
              "agents_completed" := VList [VStr "vision"] ]} : State)).
Proof.
  unfold vision_agent. split; [|split].
  - intros update H. apply bind_Ok in H as (analyses & Hrun & H). injection H as <-.
    destruct (analyse_images_spec w _ _ _ Hrun) as (fresh & -> & Hall & _).
    exists fresh. by split.
  - intros Hdicts Hall.
    destruct (analyse_images_returns w _ [] Hdicts Hall) as [out ->]. by eexists.
  - intros Hdicts Hnone. by rewrite (analyse_images_no_data w _ [] Hdicts Hnone).
Qed.

(** X19. A State the router sends to the context responder has the intent of a
    follow-up or of a repeated question.  When the responder returns, its
    response is what the model answered on the messages and the query of
    the State, under the prompt for that intent, and this answer is also
    the one new message; the confidence is HIGH for a follow-up and MEDIUM
    for a repeated question. *)
Theorem context_responder_confidence (w : World) (state update : State) :
  route_after_supervisor state = Single "context_responder" →
  context_responder w state = Ok update →
  ∃ content,
    update !! "response" = Some (VStr content)
    ∧ update !! "messages" = Some (VList [VMsg "ai" content])
    ∧ ((state !! "query_type" = Some (VStr "followup_with_context")
        ∧ llm_context w false (as_list (get state "messages" (VList [])))
            (as_str (get state "original_query" (VStr ""))) = Ok content
        ∧ update !! "confidence_overall" = Some (VStr "HIGH"))
       ∨ (state !! "query_type" = Some (VStr "repeated_question")
          ∧ llm_context w true (as_list (get state "messages" (VList [])))
              (as_str (get state "original_query" (VStr ""))) = Ok content
          ∧ update !! "confidence_overall" = Some (VStr "MEDIUM"))).
Proof.
  intros Hroute Hrun.
  assert (Hq : state !! "query_type" = Some (VStr "followup_with_context")
               ∨ state !! "query_type" = Some (VStr "repeated_question")).
  { unfold route_after_supervisor, get in Hroute.
    destruct (state !! "query_type") as [[| |intent| | | | |]|]; simpl in Hroute;
      try discriminate.
    destruct (String.eqb_spec intent "greeting") as [|Hg]; [discriminate|].
    destruct (String.eqb_spec intent "followup_with_context") as [Hf|Hf];
      [left; by rewrite Hf|].
    destruct (String.eqb_spec intent "repeated_question") as [Hr|Hr];
      [right; by rewrite Hr|].
    simpl in Hroute. destruct (_ || _), (truthy _); discriminate. }
  unfold context_responder in Hrun. destruct (negb _); [discriminate|].
  apply bind_Ok in Hrun as (content & Hmodel & Hrun). injection Hrun as <-.
  exists content. split; [done|]. split; [done|].
  unfold get in *. destruct Hq as [Hq|Hq]; rewrite Hq in Hmodel |- *;
    [left | right]; by repeat split.
Qed.

Lemma context_responder_confidence_witness :
  ∃ content update,
    context_responder Sample.world Sample2.repeated_state = Ok update
    ∧ update !! "response" = Some (VStr content)
    ∧ llm_context Sample.world true [] "again?" = Ok content
    ∧ update !! "confidence_overall" = Some (VStr "MEDIUM").
Proof.
  destruct (context_responder_confidence Sample.world Sample2.repeated_state _
              eq_refl eq_refl) as (content & Hresp & _ & [[Hq _] | (_ & Hmodel & Hconf)]).
  - discriminate Hq.
  - exists content. eexists. split; [reflexivity|]. by repeat split.
Defined.

End OtherAgents.

(** ** Validating the numbers of a claim *)

Section Numbers.
Import Validation.

Example findall_percent :
  findall_numbers "ORR 25% (95% CI 1.5-3.25), n=120." = ["25%"; "95%"; "1.5"; "3.25"; "120"].
Proof. reflexivity. Qed.

Example findall_trailing_dot : findall_numbers "in 2024. Then 3.x" = ["2024"; "3"].
Proof. reflexivity. Qed.

(** tests/test_safety.py: the number of the claim is in the evidence. *)
Example test_validate_claim_numbers_present :
  validate_claim as_str "The response rate is 25%." Sample2.test_evidence
  = Ok (true, "OK").
Proof. reflexivity. Qed.

(** tests/test_safety.py: the number of the claim is not in the evidence. *)
Example test_validate_claim_numbers_missing :
  validate_claim as_str "The response rate is 30%." Sample2.test_evidence
  = Ok (false, "Number 30% not found in evidence").
Proof. reflexivity. Qed.

Lemma findall_digit_free (s : string) : digit_free s → findall_from Idle s = [].
Proof.
  induction s as [|c s IH]; [done|]. intros [Hc Hs]. simpl. rewrite Hc. by apply IH.
Qed.

Lemma found_in_dicts (str_of : Value → string) (num : string) (evidence : list Value) :
  Forall is_dict evidence →
  found_in str_of num evidence = Ok (occurs num (snippet_texts str_of evidence)).
Proof.
  induction 1 as [|item rest [d ->] _ IH]; [done|].
  unfold occurs, snippet_texts in *. simpl. destruct (contains num _); [done|].
  by rewrite IH.
Qed.

Lemma check_numbers_dicts (str_of : Value → string) (numbers : list string)
    (evidence : list Value) :
  Forall is_dict evidence →
  check_numbers str_of numbers evidence
  = Ok (match List.find (fun num => negb (occurs num (snippet_texts str_of evidence)))
                numbers with
        | None => (true, "OK")
        | Some num => (false, "Number " +:+ num +:+ " not found in evidence")
        end).
Proof.
  intros Hd. induction numbers as [|num rest IH]; [done|].
  simpl. rewrite (found_in_dicts _ _ _ Hd). simpl.
  destruct (occurs num _); simpl; [exact IH | done].
Qed.

Lemma snippet_texts_app (str_of : Value → string) (a b : list Value) :
  snippet_texts str_of (a ++ b) = (snippet_texts str_of a ++ snippet_texts str_of b)%list.
Proof. unfold snippet_texts. apply omap_app. Qed.

(** X20. A claim without a digit is valid against any evidence.  Against
    evidence items that are dicts, a claim is valid exactly when each of
    its numbers occurs in the snippet of some item; a claim that is not
    valid is refused with the first of its numbers that occurs in none;
    and more evidence never makes a valid claim invalid. *)
Theorem validate_claim_checks_every_number (str_of : Value → string) (claim : string)
    (evidence more : list Value) :
  Forall is_dict evidence →
  Forall is_dict more →
  (digit_free claim → validate_claim str_of claim evidence = Ok (true, "OK"))
  ∧ (validate_claim str_of claim evidence = Ok (true, "OK")
     ↔ Forall (fun num => occurs num (snippet_texts str_of evidence) = true)
         (findall_numbers claim))
  ∧ (∀ reason, validate_claim str_of claim evidence = Ok (false, reason) →
       ∃ num, num ∈ findall_numbers claim
              ∧ occurs num (snippet_texts str_of evidence) = false
              ∧ reason = "Number " +:+ num +:+ " not found in evidence")
  ∧ (validate_claim str_of claim evidence = Ok (true, "OK") →
     validate_claim str_of claim (evidence ++ more) = Ok (true, "OK")).
Proof.
  intros Hd Hm. unfold validate_claim.
  assert (Hiff : ∀ ev, Forall is_dict ev →
            (check_numbers str_of (findall_numbers claim) ev = Ok (true, "OK")
             ↔ Forall (fun num => occurs num (snippet_texts str_of ev) = true)
                 (findall_numbers claim))).
  { intros ev Hev. rewrite (check_numbers_dicts _ _ _ Hev).
    induction (findall_numbers claim) as [|num rest IH]; simpl; [done|].
    destruct (occurs num _) eqn:Ho; simpl.
    - rewrite IH. split; [by constructor | by intros [_ ?]%Forall_cons].
    - split; [discriminate|]. intros [Hn _]%Forall_cons. congruence. }
  split; [|split; [|split]].
  - intros Hfree. unfold findall_numbers. by rewrite findall_digit_free.
  - by apply Hiff.
  - intros reason. rewrite (check_numbers_dicts _ _ _ Hd).
    destruct (List.find _ _) as [num|] eqn:Hfind; [|discriminate].
    intros [= <-]. apply find_some in Hfind as [Hin Hno].
    exists num. split; [by apply list_elem_of_In|]. split; [|done].
    by destruct (occurs num _).
  - rewrite (Hiff evidence Hd), (Hiff (evidence ++ more)%list) by by apply Forall_app.
    intros HF. eapply Forall_impl; [exact HF|]. intros num. unfold occurs.
    rewrite snippet_texts_app, existsb_app. by intros ->.
Qed.

Lemma validate_claim_checks_every_number_witness :
  validate_claim as_str "The response rate is 25%."
    (Sample2.test_evidence ++ Sample2.test_evidence) = Ok (true, "OK").
Proof.
  refine (proj2 (proj2 (proj2 (validate_claim_checks_every_number as_str
            "The response rate is 25%." Sample2.test_evidence Sample2.test_evidence _ _)))
            eq_refl).
  - repeat constructor; unfold is_dict; eauto.
  - repeat constructor; unfold is_dict; eauto.
Defined.

End Numbers.

(** ** The first turn of a session, from the handler to the router *)

Section FirstTurn.
Import Routes Supervisor.

Lemma initial_state_fields (request : QueryRequest.t) (images : list Value) :
  initial_state request images !! "messages"
  = Some (VList [VMsg "human" (QueryRequest.query request)])
  ∧ initial_state request images !! "original_query"
    = Some (VStr (QueryRequest.query request))
  ∧ initial_state request images !! "images" = Some (VList images)
  ∧ initial_state request images !! "query_type"
    = Some (VStr (_infer_query_type (QueryRequest.query request))).
Proof. repeat split; reflexivity. Qed.

(** X21. On the State the handler builds for a request, the supervisor asks no
    model: the one message of the State is the query, so the intent is
    [greeting] or [research_required] by the words of the query alone, in
    every world.  The query type the handler inferred is overwritten and
    plays no part in the routing: the request goes to the direct chat, or
    to research, with vision exactly when images were uploaded. *)
Theorem first_turn_routing (w : World) (request : QueryRequest.t) (images : list Value) :
  (supervisor w (initial_state request images) = {[ "query_type" := VStr "greeting" ]}
   ∧ dispatched (route_after_supervisor
                   (overwritten (supervisor w (initial_state request images))
                      (initial_state request images))) = ["direct_chat"])
  ∨ (supervisor w (initial_state request images)
     = {[ "query_type" := VStr "research_required" ]}
     ∧ dispatched (route_after_supervisor
                     (overwritten (supervisor w (initial_state request images))
                        (initial_state request images)))
       = "research" :: (if images is [] then [] else ["vision"])).
Proof.
  destruct (initial_state_fields request images) as (Hm & Hq & Hi & _).
  assert (Hsup : supervisor w (initial_state request images)
                 = {[ "query_type" := VStr "greeting" ]}
                 ∨ supervisor w (initial_state request images)
                   = {[ "query_type" := VStr "research_required" ]}).
  { unfold supervisor, _classify_intent_with_llm, _classify_intent_simple,
      greeting_or_research, get. rewrite Hm, Hq. simpl.
    destruct (key_set _); destruct (_ && _); (by left) || (by right). }
  assert (Himg : get (overwritten (supervisor w (initial_state request images))
                        (initial_state request images)) "images" VNone = VList images).
  { unfold get, overwritten.
    destruct Hsup as [-> | ->];
      (rewrite lookup_union_r by (by apply lookup_singleton_ne)); by rewrite Hi. }
  destruct Hsup as [E | E]; [left | right]; (split; [exact E|]).
  - unfold route_after_supervisor, get, overwritten. rewrite E.
    rewrite (lookup_union_Some_l _ _ _ _ (lookup_singleton_eq _ _)). reflexivity.
  - rewrite (research_required_route _); [|unfold overwritten; rewrite E;
      apply lookup_union_Some_l, lookup_singleton_eq].
    rewrite Himg. unfold dispatched. by destruct images.
Qed.

End FirstTurn.
